(** * Job scraper service (server.js): a shallow embedding and its properties

    The service answers [POST /api/scrape] by driving a remote browser
    through two source-specific extractors, merging what they return,
    enriching a prefix of the merged list with a career page and a contact
    address, and writing progress frames to the response as it goes.

    The embedding keeps the shape of the source: every [async] function is
    a computation in a small state-and-exception monad whose state holds
    the module-level [browser] variable, the calls made to the automation
    engine, the server console and the response object.  What the remote
    pages answer is an oracle ([world]): one [session] per page opened. *)

From Stdlib Require Import Ascii QArith Qround SpecFloat.
From stdpp Require Import base strings list gmap pretty.

Local Open Scope string_scope.
Local Open Scope Z_scope.

(** ** JavaScript values, truthiness, numbers *)

Module JS.

(** The values a job field can hold: [null] or a string. An absent
    property is a missing key of the object. *)
Inductive val :=
| VNull
| VStr (s : string).

(** [!!v] for the values above: [null] and the empty string are falsy. *)
Definition truthy (v : val) : bool :=
  match v with
  | VStr (String _ _) => true
  | _ => false
  end.

(** Truthiness of a possibly [undefined] string. *)
Definition truthy_str (o : option string) : bool :=
  match o with
  | Some (String _ _) => true
  | _ => false
  end.

(** [a || b] on possibly [undefined] strings. *)
Definition or_else (a b : option string) : option string :=
  if truthy_str a then a else b.

(** String conversion of a property read, as in [x + " careers"]. *)
Definition to_string (o : option val) : string :=
  match o with
  | Some (VStr s) => s
  | Some VNull => "null"
  | None => "undefined"
  end.

(** The numbers that [maxResults / sources.length] can produce: a
    rational, an infinity or NaN. *)
Inductive num :=
| Num (q : Q)
| PosInf
| NegInf
| NaN.

(** [m / n] for an integer [m] and an array length [n], at its exact
    value.  The engine rounds the quotient to a double ([Binary64.div]
    below); for a dividend under [2^53] in size that moves neither the
    floor nor the ceiling of the quotient, and the handler is modelled
    with the exact value. *)
Definition div (m : Z) (n : nat) : num :=
  match n with
  | O => if 0 <? m then PosInf else if m <? 0 then NegInf else NaN
  | S _ => Num (m # Pos.of_nat n)
  end.

(** [Math.ceil]. *)
Definition ceil (x : num) : num :=
  match x with
  | Num q => Num (inject_Z (Qceiling q))
  | _ => x
  end.

(** [ToIntegerOrInfinity]: truncation toward zero, NaN to 0. *)
Definition to_integer (x : num) : num :=
  match x with
  | Num q => Num (inject_Z (if Qle_bool 0 q then Qfloor q else Qceiling q))
  | NaN => Num 0
  | _ => x
  end.

(** [arr.slice(0, end)]: a negative [end] counts from the back, and
    the result is clamped to the array. *)
Definition slice0 {A} (arr : list A) (e : num) : list A :=
  let len := Z.of_nat (length arr) in
  let final :=
    match to_integer e with
    | Num q => let r := Qfloor q in
               if r <? 0 then Z.max (len + r) 0 else Z.min r len
    | PosInf => len
    | NegInf | NaN => 0
    end in
  take (Z.to_nat final) arr.

End JS.

Import JS.

(** ** The quotient as the engine computes it

    [maxResults / sources.length] is a division of two doubles: its
    result is the double nearest to the exact quotient, a tie going to
    the one with an even significand.  The dividend is the integer value
    of a double and the divisor an array length, so the quotient of
    non-zero operands is a normal double and neither overflow nor
    underflow occurs. *)

Module Binary64.

(** [2^p] as the fraction [up p / down p]. *)
Definition up (p : Z) : Z := 2 ^ Z.max p 0.
Definition down (p : Z) : Z := 2 ^ Z.max (- p) 0.

(** The exponent [e] of [a / b]: [2^e <= a / b < 2^(e+1)]. *)
Definition exponent (a b : Z) : Z :=
  let d := Z.log2 a - Z.log2 b in
  if b * up d <=? a * down d then d else d - 1.

(** The integer nearest to [n / d], a tie going to the even one. *)
Definition nearest_even (n d : Z) : Z :=
  let f := n / d in
  match 2 * (n mod d) ?= d with
  | Lt => f
  | Gt => f + 1
  | Eq => if Z.even f then f else f + 1
  end.

(** The double nearest to [a / b] for positive [a] and [b]: a
    significand of 53 bits, [2^52 <= k <= 2^53], at the scale
    [2^(e - 52)]. *)
Definition round_positive (a b : Z) : Q :=
  let p := 52 - exponent a b in
  let k := nearest_even (a * up p) (b * down p) in
  (k * down p) # Z.to_pos (up p).

(** The double nearest to a rational. *)
Definition round (q : Q) : Q :=
  match Qnum q with
  | Z0 => 0
  | Zpos a => round_positive (Zpos a) (Zpos (Qden q))
  | Zneg a => - round_positive (Zpos a) (Zpos (Qden q))
  end.

(** [m / n] in doubles. *)
Definition div (m : Z) (n : nat) : JS.num :=
  match JS.div m n with
  | JS.Num q => JS.Num (round q)
  | x => x
  end.

(** The value of a finite double in the Standard Library's specification
    of IEEE 754 arithmetic. *)
Definition value (f : spec_float) : option Q :=
  match f with
  | S754_zero _ => Some 0%Q
  | S754_finite s m e =>
      Some ((if s then -1 else 1) * inject_Z (Zpos m) * (up e # Z.to_pos (down e)))%Q
  | _ => None
  end.

(** The quotient of the integers [m] and [n] by that specification, at
    the precision and exponent range of binary64. *)
Definition reference (m n : Z) : option Q :=
  value (SFdiv 53 1024 (binary_normalize 53 1024 m 0 false)
                       (binary_normalize 53 1024 n 0 false)).

(** [round] gives what the specification gives for [m / n]. *)
Definition agrees (m n : Z) : bool :=
  match reference m n with
  | Some q => Qeq_bool (round (m # Z.to_pos n)) q
  | None => false
  end.

End Binary64.

(** ** Job records

    A job is a plain object: a finite map from property names to values.
    The enrichment stage adds properties to it after it was built. *)

Abbreviation JobRecord := (gmap string val).

(** ** Errors, outcomes and the monad of the service *)

Inductive error :=
| LaunchError
| NewPageError
| UserAgentError
| NavigationError
| SelectorTimeout
| EvaluateError
| ClosePageError
| TypeError.

Inductive outcome (A : Type) :=
| Ret (a : A)
| Throw (e : error).
Arguments Ret {A} a.
Arguments Throw {A} e.

(** Where a page is sent: the URL templates of the source with their
    arguments (percent-encoding is not unfolded). *)
Inductive target :=
| LinkedInSearch (keywords location : string) (start : Z)
| NaukriSearch (keywords location : string) (page : Z)
| GoogleSearch (query : string)
| Direct (url : string).

(** Calls made to the automation engine, in the order they happen. *)
Inductive call :=
| Launch
| NewPage
| SetUserAgent (ua : string)
| Goto (t : target) (timeout : Z)
| WaitForSelector (selector : string) (timeout : Z)
| Evaluate
| ClosePage.

(** The frames written on the response:
    [{type:"progress", message, progress}] and [{type:"complete", jobs}]. *)
Inductive frame :=
| Progress (message : string) (progress : Z)
| Complete (jobs : list JobRecord).

(** Bodies sent by [res.json]: [{error}] or [{error, details}]. *)
Record body := { body_error : string; body_details : option error }.

(** The response object: the status set by [res.status] (200 when it was
    never set), the body sent by [res.json], the chunks written by
    [res.write], and whether the response was ended. *)
Record response := {
  res_status : Z;
  res_json : option body;
  res_frames : list frame;
  res_ended : bool
}.

Definition fresh_response : response :=
  {| res_status := 200; res_json := None; res_frames := []; res_ended := false |}.

Record state := {
  st_browser : bool;          (* the module variable [browser] is set *)
  st_calls : list call;       (* calls to the automation engine *)
  st_console : list string;   (* console.error lines *)
  st_res : response
}.

Definition initial_state : state :=
  {| st_browser := false; st_calls := []; st_console := []; st_res := fresh_response |}.

Definition M (A : Type) : Type := state -> outcome A * state.

Definition ret {A} (a : A) : M A := fun s => (Ret a, s).

Definition throw {A} (e : error) : M A := fun s => (Throw e, s).

Definition bind {A B} (m : M A) (k : A -> M B) : M B :=
  fun s => match m s with
           | (Ret a, s') => k a s'
           | (Throw e, s') => (Throw e, s')
           end.

Notation "'await' x <- m ; k" := (bind m (fun x => k))
  (at level 10, x name, m at level 100, k at level 200).
Notation "'exec' m ; k" := (bind m (fun _ => k))
  (at level 10, m at level 100, k at level 200).

(** [try { body } catch (e) { handler e }] *)
Definition try_catch {A} (body : M A) (handler : error -> M A) : M A :=
  fun s => match body s with
           | (Ret a, s') => (Ret a, s')
           | (Throw e, s') => handler e s'
           end.

(** [try { body } finally { fin }]: the finalizer always runs; when it
    throws, its exception replaces the outcome of the body. *)
Definition try_finally {A} (body : M A) (fin : M unit) : M A :=
  fun s => match body s with
           | (r, s') => match fin s' with
                        | (Ret _, s'') => (r, s'')
                        | (Throw e, s'') => (Throw e, s'')
                        end
           end.

Definition log_call (c : call) (s : state) : state :=
  {| st_browser := st_browser s; st_calls := st_calls s ++ [c];
     st_console := st_console s; st_res := st_res s |}.

Definition set_browser (s : state) : state :=
  {| st_browser := true; st_calls := st_calls s;
     st_console := st_console s; st_res := st_res s |}.

Definition console_error (line : string) : M unit :=
  fun s => (Ret tt, {| st_browser := st_browser s; st_calls := st_calls s;
                       st_console := st_console s ++ [line]; st_res := st_res s |}).

Definition with_res (f : response -> response) (s : state) : state :=
  {| st_browser := st_browser s; st_calls := st_calls s;
     st_console := st_console s; st_res := f (st_res s) |}.

(** [res.write(`data: ${JSON.stringify(frame)}\n\n`)] *)
Definition res_write (f : frame) : M unit :=
  fun s => (Ret tt, with_res (fun r =>
     {| res_status := res_status r; res_json := res_json r;
        res_frames := res_frames r ++ [f]; res_ended := res_ended r |}) s).

(** [res.end()] *)
Definition res_end : M unit :=
  fun s => (Ret tt, with_res (fun r =>
     {| res_status := res_status r; res_json := res_json r;
        res_frames := res_frames r; res_ended := true |}) s).

(** [res.status(code).json(b)] *)
Definition res_status_json (code : Z) (b : body) : M unit :=
  fun s => (Ret tt, with_res (fun r =>
     {| res_status := code; res_json := Some b;
        res_frames := res_frames r; res_ended := true |}) s).

(** ** The automation engine

    One [session] is what the remote side answers during the life of one
    page: whether each call succeeds, and what [page.evaluate] sees.
    [launch_ok] is consulted only when no browser is cached yet. *)

Record session (D : Type) := {
  launch_ok : bool;
  newPage_ok : bool;
  setUserAgent_ok : bool;
  goto_ok : bool;
  waitForSelector_ok : bool;
  evaluate_result : option D;      (* [None]: the evaluation rejects *)
  close_ok : bool
}.
Arguments launch_ok {D} _.
Arguments newPage_ok {D} _.
Arguments setUserAgent_ok {D} _.
Arguments goto_ok {D} _.
Arguments waitForSelector_ok {D} _.
Arguments evaluate_result {D} _.
Arguments close_ok {D} _.

(** [getBrowser]: launch on first use, then reuse the cached handle. *)
Definition getBrowser {D} (p : session D) : M unit :=
  fun s =>
    if st_browser s then (Ret tt, s)
    else if launch_ok p then (Ret tt, set_browser (log_call Launch s))
    else (Throw LaunchError, log_call Launch s).

Definition engine_call (c : call) (ok : bool) (e : error) : M unit :=
  fun s => (if ok then Ret tt else Throw e, log_call c s).

Definition newPage {D} (p : session D) : M unit :=
  engine_call NewPage (newPage_ok p) NewPageError.

Definition setUserAgent {D} (p : session D) (ua : string) : M unit :=
  engine_call (SetUserAgent ua) (setUserAgent_ok p) UserAgentError.

Definition goto {D} (p : session D) (t : target) (timeout : Z) : M unit :=
  engine_call (Goto t timeout) (goto_ok p) NavigationError.

Definition waitForSelector {D} (p : session D) (sel : string) (timeout : Z) : M unit :=
  engine_call (WaitForSelector sel timeout) (waitForSelector_ok p) SelectorTimeout.

Definition evaluate {D} (p : session D) : M D :=
  fun s => (match evaluate_result p with
            | Some d => Ret d
            | None => Throw EvaluateError
            end, log_call Evaluate s).

Definition closePage {D} (p : session D) : M unit :=
  engine_call ClosePage (close_ok p) ClosePageError.

(** ** Extractors *)

Definition chrome_user_agent : string :=
  "Mozilla/5.0 (Windows NT 10.0; Win64; x64) AppleWebKit/537.36 (KHTML, like Gecko) Chrome/120.0.0.0 Safari/537.36".

Definition short_user_agent : string :=
  "Mozilla/5.0 (Windows NT 10.0; Win64; x64) AppleWebKit/537.36".

(** What the LinkedIn query reads from one [.base-card]: the trimmed text
    of each child element when the element exists, the link target, the
    [time] element with its [datetime] attribute, and the clock. *)
Record linkedin_card := {
  li_now : N;
  li_title : option string;
  li_company : option string;
  li_location : option string;
  li_link : option string;
  li_time : option (option string)
}.

Definition linkedin_job (index : nat) (c : linkedin_card) : option JobRecord :=
  match li_title c, li_company c, li_link c with
  | Some title, Some company, Some href =>
      Some (list_to_map
        [ ("id", VStr ("linkedin-" +:+ pretty (li_now c) +:+ "-" +:+ pretty index));
          ("title", VStr title);
          ("company", VStr company);
          ("location", VStr (default EmptyString (li_location c)));
          ("jobUrl", VStr href);
          ("postedDate", match li_time c with
                         | Some (Some d) => VStr d
                         | Some None => VNull
                         | None => VStr EmptyString
                         end);
          ("source", VStr "linkedin");
          ("status", VStr "scraped") ])
  | _, _, _ => None
  end.

(** The [forEach] over the cards: the index counts skipped cards too. *)
Definition linkedin_jobs (cards : list linkedin_card) : list JobRecord :=
  omap id (imap linkedin_job cards).

Definition scrapeLinkedIn (p : session (list linkedin_card))
    (keywords location : string) (page : Z) : M (list JobRecord) :=
  exec getBrowser p;
  exec newPage p;
  try_finally
    (try_catch
       (exec setUserAgent p chrome_user_agent;
        exec goto p (LinkedInSearch keywords location (page * 25)) 30000;
        exec waitForSelector p ".base-card" 10000;
        await cards <- evaluate p;
        ret (linkedin_jobs cards))
       (fun error =>
          exec console_error "LinkedIn scraping error:";
          throw error))
    (closePage p).

(** What the Naukri query reads from one job tuple; the title element
    carries an [href] only when it is a link, and [nk_first_link] is
    [card.querySelector("a")?.href]. *)
Record naukri_card := {
  nk_now : N;
  nk_title : option (string * option string);
  nk_company : option string;
  nk_location : option string;
  nk_experience : option string;
  nk_date : option string;
  nk_first_link : option string
}.

Definition naukri_job (index : nat) (c : naukri_card) : option JobRecord :=
  match nk_title c, nk_company c with
  | Some (title, title_href), Some company =>
      Some (list_to_map
        [ ("id", VStr ("naukri-" +:+ pretty (nk_now c) +:+ "-" +:+ pretty index));
          ("title", VStr title);
          ("company", VStr company);
          ("location", VStr (default EmptyString (nk_location c)));
          ("experience", VStr (default EmptyString (nk_experience c)));
          ("jobUrl", VStr (default EmptyString
                       (or_else (or_else title_href (nk_first_link c))
                                (Some EmptyString))));
          ("postedDate", VStr (default EmptyString (nk_date c)));
          ("source", VStr "naukri");
          ("status", VStr "scraped") ])
  | _, _ => None
  end.

Definition naukri_jobs (cards : list naukri_card) : list JobRecord :=
  omap id (imap naukri_job cards).

Definition scrapeNaukri (p : session (list naukri_card))
    (keywords location : string) (page : Z) : M (list JobRecord) :=
  exec getBrowser p;
  exec newPage p;
  try_finally
    (try_catch
       (exec setUserAgent p chrome_user_agent;
        exec goto p (NaukriSearch keywords location (page + 1)) 30000;
        exec waitForSelector p ".srp-jobtuple-wrapper, article.jobTuple" 10000;
        await cards <- evaluate p;
        ret (naukri_jobs cards))
       (fun error =>
          exec console_error "Naukri scraping error:";
          throw error))
    (closePage p).

(** ** The e-mail pattern of [findHREmail]

    [/\b[A-Za-z0-9._%+-]+@[A-Za-z0-9.-]+\.[A-Z|a-z]{2,}\b/g] over the page
    text, and [/hr|careers|recruitment|jobs|talent/i] over one address.
    The text is a sequence of bytes; no class of either pattern contains
    a byte above 127. *)

Module Regex.

Definition between (lo hi : N) (c : ascii) : bool :=
  ((lo <=? N_of_ascii c) && (N_of_ascii c <=? hi))%N.

Definition is_upper : ascii -> bool := between 65 90.
Definition is_lower : ascii -> bool := between 97 122.
Definition is_digit : ascii -> bool := between 48 57.
Definition is_alnum (c : ascii) : bool := is_upper c || is_lower c || is_digit c.

Definition one_of (chars : string) (c : ascii) : bool :=
  existsb (Ascii.eqb c) (String.list_ascii_of_string chars).

(** [\w] *)
Definition is_word (c : ascii) : bool := is_alnum c || one_of "_" c.
(** [[A-Za-z0-9._%+-]] *)
Definition is_local (c : ascii) : bool := is_alnum c || one_of "._%+-" c.
(** [[A-Za-z0-9.-]] *)
Definition is_domain (c : ascii) : bool := is_alnum c || one_of ".-" c.
(** [[A-Z|a-z]]: the bar is a member of the class *)
Definition is_tld (c : ascii) : bool := is_upper c || is_lower c || one_of "|" c.

(** [\b] between two neighbouring positions; [None] is an end of the text. *)
Definition boundary (a b : option ascii) : bool :=
  xorb (from_option is_word false a) (from_option is_word false b).

(** Length of the longest prefix inside a class: what a greedy [+] takes first. *)
Fixpoint run_length (cls : ascii -> bool) (s : list ascii) : nat :=
  match s with
  | c :: s' => if cls c then S (run_length cls s') else O
  | [] => O
  end.

(** [hi, hi-1, ..., lo]: the order in which a greedy quantifier gives back. *)
Definition countdown (hi lo : nat) : list nat := reverse (seq lo (S hi - lo)).

Fixpoint first_some {A B} (f : A -> option B) (l : list A) : option B :=
  match l with
  | [] => None
  | a :: l' => match f a with
               | Some b => Some b
               | None => first_some f l'
               end
  end.

(** [[A-Z|a-z]{2,}\b] at the start of [s]: the length matched. *)
Definition match_tld (s : list ascii) : option nat :=
  first_some
    (fun t => if boundary (s !! pred t) (s !! t) then Some t else None)
    (countdown (run_length is_tld s) 2).

(** [[A-Za-z0-9.-]+\.[A-Z|a-z]{2,}\b] at the start of [s]. *)
Definition match_domain (s : list ascii) : option nat :=
  first_some
    (fun d => match s !! d with
              | Some c =>
                  if Ascii.eqb c "."%char
                  then match match_tld (drop (S d) s) with
                       | Some t => Some (d + 1 + t)%nat
                       | None => None
                       end
                  else None
              | None => None
              end)
    (countdown (run_length is_domain s) 1).

(** The whole pattern at the start of [s], [prev] being the byte before.
    The local part is the whole run of class bytes: a shorter one is
    followed by a class byte, never by the at sign. *)
Definition match_here (prev : option ascii) (s : list ascii) : option (list ascii) :=
  if boundary prev (head s) then
    match run_length is_local s with
    | O => None
    | S l' =>
        match s !! S l' with
        | Some c =>
            if Ascii.eqb c "@"%char
            then match match_domain (drop (S (S l')) s) with
                 | Some m => Some (take (S l' + 1 + m) s)
                 | None => None
                 end
            else None
        | None => None
        end
    end
  else None.

(** The global scan: leftmost match, then on from its end. [skip]
    counts the bytes of the last match still to step over. *)
Fixpoint scan (skip : nat) (prev : option ascii) (s : list ascii) : list (list ascii) :=
  match s with
  | [] => []
  | c :: s' =>
      match skip with
      | S k => scan k (Some c) s'
      | O => match match_here prev s with
             | Some m => m :: scan (pred (length m)) (Some c) s'
             | None => scan O (Some c) s'
             end
      end
  end.

(** [text.match(emailRegex)]: [null] when nothing matches. *)
Definition match_emails (text : string) : option (list string) :=
  match scan O None (String.list_ascii_of_string text) with
  | [] => None
  | ms => Some (map String.string_of_list_ascii ms)
  end.

Definition upper (c : ascii) : ascii :=
  if is_lower c then ascii_of_N (N_of_ascii c - 32) else c.

Fixpoint prefix_ci (p s : list ascii) : bool :=
  match p, s with
  | [], _ => true
  | a :: p', b :: s' => Ascii.eqb (upper a) (upper b) && prefix_ci p' s'
  | _ :: _, [] => false
  end.

Fixpoint contains_ci (p s : list ascii) : bool :=
  prefix_ci p s ||
  match s with
  | [] => false
  | _ :: s' => contains_ci p s'
  end.

Definition role_words : list string :=
  ["hr"; "careers"; "recruitment"; "jobs"; "talent"].

(** [/hr|careers|recruitment|jobs|talent/i.test(email)] *)
Definition role_test (email : string) : bool :=
  existsb (fun w => contains_ci (String.list_ascii_of_string w) (String.list_ascii_of_string email))
          role_words.

End Regex.

(** ** Enrichment *)

(** The body of the [page.evaluate] callback of [findHREmail]. *)
Definition select_email (text : string) : val :=
  match Regex.match_emails text with
  | Some (first :: rest) =>
      let hrEmail := List.find Regex.role_test (first :: rest) in
      match or_else hrEmail (Some first) with
      | Some e => VStr e
      | None => VNull
      end
  | _ => VNull
  end.

(** [findCareerPage]: the session sees the first [div.g a], if any. *)
Definition findCareerPage (p : session (option string)) (companyName : string) : M val :=
  exec getBrowser p;
  exec newPage p;
  try_finally
    (try_catch
       (exec setUserAgent p short_user_agent;
        exec goto p (GoogleSearch (companyName +:+ " careers")) 15000;
        await firstResult <- evaluate p;
        ret (match firstResult with
             | Some href => VStr href
             | None => VNull
             end))
       (fun error =>
          exec console_error "Career page search error:";
          ret VNull))
    (closePage p).

(** [findHREmail]: the session sees [document.body.innerText]. *)
Definition findHREmail (p : session string) (careerPageUrl : val) : M val :=
  match careerPageUrl with
  | VStr (String a u) =>
      exec getBrowser p;
      exec newPage p;
      try_finally
        (try_catch
           (exec goto p (Direct (String a u)) 15000;
            await bodyText <- evaluate p;
            ret (select_email bodyText))
           (fun error =>
              exec console_error "Email search error:";
              ret VNull))
        (closePage p)
  | _ => ret VNull
  end.

(** ** The scrape endpoint *)

(** What the remote side answers during one request: the page opened for
    the source at position [k] of [sources], and the pages opened while
    enriching the job at index [i]. *)
Record world := {
  linkedin_page : nat -> session (list linkedin_card);
  naukri_page : nat -> session (list naukri_card);
  career_page : nat -> session (option string);
  email_page : nat -> session string
}.

(** [req.body]: a field that is [None] is missing from the body.  The
    fields that are present are strings, a list of strings and an
    integer; [sources_field] below has the other values [sources] can
    take. *)
Record request := {
  req_keywords : option string;
  req_location : option string;
  req_sources : option (list string);
  req_maxResults : option Z
}.

(** [location || "India"] *)
Definition location_or_default (location : option string) : string :=
  default "India" (or_else location (Some "India")).

(** [Math.ceil(maxResults / sources.length)], the quotient taken at its
    exact value. *)
Definition resultsPerSource (maxResults : Z) (sources : list string) : num :=
  ceil (div maxResults (length sources)).

(** [Math.ceil(maxResults / sources.length)] with the quotient rounded
    to a double. *)
Definition resultsPerSource64 (maxResults : Z) (sources : list string) : JS.num :=
  JS.ceil (Binary64.div maxResults (length sources)).

(** The [if / else if] of one iteration: announce the source, run its
    extractor.  An unknown source leaves [sourceJobs] empty. *)
Definition scrape_source (w : world) (keywords : string) (location : option string)
    (k : nat) (source : string) : M (list JobRecord) :=
  if String.eqb source "linkedin" then
    exec res_write (Progress "Searching LinkedIn..." 20);
    scrapeLinkedIn (linkedin_page w k) keywords (location_or_default location) 0
  else if String.eqb source "naukri" then
    exec res_write (Progress "Searching Naukri.com..." 40);
    scrapeNaukri (naukri_page w k) keywords (location_or_default location) 0
  else ret [].

(** The body of [for (const source of sources)], as a function of
    [allJobs]. *)
Definition scrape_iteration (w : world) (keywords : string) (location : option string)
    (rps : num) (k : nat) (source : string) (allJobs : list JobRecord) : M (list JobRecord) :=
  try_catch
    (await sourceJobs <- scrape_source w keywords location k source;
     ret (allJobs ++ slice0 sourceJobs rps)%list)
    (fun err =>
       exec console_error ("Error scraping " +:+ source +:+ ":");
       ret allJobs).

Fixpoint scrape_loop (w : world) (keywords : string) (location : option string)
    (rps : num) (k : nat) (sources : list string) (allJobs : list JobRecord) : M (list JobRecord) :=
  match sources with
  | [] => ret allJobs
  | source :: rest =>
      await allJobs' <- scrape_iteration w keywords location rps k source allJobs;
      scrape_loop w keywords location rps (S k) rest allJobs'
  end.

(** The body of the enrichment loop.  The objects of [allJobs] are
    distinct (each comes out of its own deserialisation), so assigning a
    property of [allJobs[i]] is an update of the list at [i].  The
    assignment to [careerPageUrl] happens before the second call, so it
    survives when that call throws. *)
Definition enrich_iteration (w : world) (i : nat) (allJobs : list JobRecord) : M (list JobRecord) :=
  match allJobs !! i with
  | Some job =>
      try_catch
        (await url <- findCareerPage (career_page w i) (to_string (job !! "company"));
         let job1 : JobRecord := <["careerPageUrl" := url]> job in
         let allJobs1 := <[i := job1]> allJobs in
         if truthy url then
           try_catch
             (await email <- findHREmail (email_page w i) url;
              ret (<[i := <["hrEmail" := email]> job1]> allJobs1))
             (fun err =>
                exec console_error "Error enriching job data:";
                ret allJobs1)
         else ret allJobs1)
        (fun err =>
           exec console_error "Error enriching job data:";
           ret allJobs)
  | None =>
      exec console_error "Error enriching job data:";
      ret allJobs
  end.

(** [for (let i = 0; i < Math.min(allJobs.length, 5); i++)].  The test
    fails at [i = 5] at the latest, so five rounds of fuel are all the
    loop can use. *)
Fixpoint enrich_loop (w : world) (fuel i : nat) (allJobs : list JobRecord) : M (list JobRecord) :=
  match fuel with
  | O => ret allJobs
  | S fuel' =>
      if (i <? Nat.min (length allJobs) 5)%nat then
        await allJobs' <- enrich_iteration w i allJobs;
        enrich_loop w fuel' (S i) allJobs'
      else ret allJobs
  end.

Definition enrich (w : world) (allJobs : list JobRecord) : M (list JobRecord) :=
  enrich_loop w 5 0 allJobs.

(** The part of the handler inside the outer [try], for a given list of
    sources. *)
Definition pipeline (w : world) (keywords : string) (location : option string)
    (maxResults : Z) (sources : list string) : M unit :=
  let rps := resultsPerSource maxResults sources in
  await allJobs <- scrape_loop w keywords location rps 0 sources [];
  exec res_write (Progress "Finding career pages..." 60);
  await allJobs <- enrich w allJobs;
  exec res_write (Progress "Complete!" 100);
  exec res_write (Complete allJobs);
  res_end.

(** [app.post("/api/scrape", ...)].  A missing [sources] makes
    [sources.length] throw inside the outer [try]. *)
Definition handler (w : world) (req : request) : M unit :=
  let maxResults := default 20 (req_maxResults req) in
  match req_keywords req with
  | Some (String a k) =>
      try_catch
        (match req_sources req with
         | Some sources => pipeline w (String a k) (req_location req) maxResults sources
         | None => throw TypeError
         end)
        (fun error =>
           exec console_error "Scraping error:";
           res_status_json 500 {| body_error := "Failed to scrape jobs";
                                  body_details := Some error |})
  | _ =>
      res_status_json 400 {| body_error := "Keywords are required";
                             body_details := None |}
  end.

(** The [sources] field of [req.body] as the body parser can deliver it.
    [request] above holds the two cases the handler runs on as a list: the
    field is missing, or it is an array of strings. *)
Inductive sources_field :=
| SourcesMissing                            (* no such field: [undefined] *)
| SourcesNull
| SourcesScalar                             (* a boolean or a number *)
| SourcesObject                             (* a plain object *)
| SourcesText (text : string)
| SourcesArray (elements : list (option string)).  (* [None]: not a string *)

(** What [sources.length] and [for (const source of sources)] make of the
    field.  Reading [length] throws on [undefined] and [null]; a boolean,
    a number and a plain object have no [length] and are not iterable, so
    the loop throws before its first round, with nothing written yet: the
    outer [catch] sees a [TypeError] either way.  A string is iterated
    character by character, and an array element that is not a string is
    strictly equal to no source name: both stand as sources that are not
    known. *)
Definition iterated (f : sources_field) : option (list string) :=
  match f with
  | SourcesMissing | SourcesNull | SourcesScalar | SourcesObject => None
  | SourcesText text =>
      Some (map (fun c => String c EmptyString) (String.list_ascii_of_string text))
  | SourcesArray elements => Some (map (default EmptyString) elements)
  end.

(** The handler on a body with any [sources] field. *)
Definition handler_of_body (w : world) (keywords location : option string)
    (sources : sources_field) (maxResults : option Z) : M unit :=
  handler w {| req_keywords := keywords; req_location := location;
               req_sources := iterated sources; req_maxResults := maxResults |}.

(** [JSON.stringify({error: msg})] for a message with nothing to escape. *)
Definition error_json (msg : string) : string :=
  let q := String "034"%char EmptyString in
  "{" +:+ q +:+ "error" +:+ q +:+ ":" +:+ q +:+ msg +:+ q +:+ "}".

(** ** Observations on a finished response *)

Definition progress_of (f : frame) : option Z :=
  match f with
  | Progress _ p => Some p
  | Complete _ => None
  end.

Definition jobs_of (f : frame) : option (list JobRecord) :=
  match f with
  | Progress _ _ => None
  | Complete jobs => Some jobs
  end.

Definition progress_values (fs : list frame) : list Z := omap progress_of fs.

Definition complete_events (fs : list frame) : list (list JobRecord) := omap jobs_of fs.

Fixpoint nondecreasing (l : list Z) : bool :=
  match l with
  | a :: (b :: _) as l' => (a <=? b) && nondecreasing l'
  | _ => true
  end.

(** The frames of the response after running the handler from a fresh
    state. *)
Definition frames_of (w : world) (req : request) : list frame :=
  res_frames (st_res (snd (handler w req initial_state))).

(** ** Requests *)

Definition known_source (source : string) : bool :=
  String.eqb source "linkedin" || String.eqb source "naukri".

(** A valid request: keywords present and not empty, a non-empty list of
    known sources, and a positive [maxResults] when one is given. *)
Definition valid_request (req : request) : bool :=
  truthy_str (req_keywords req)
  && match req_sources req with
     | Some (source :: rest) => forallb known_source (source :: rest)
     | _ => false
     end
  && match req_maxResults req with
     | Some m => 0 <? m
     | None => true
     end.

(** [maxResults] after the destructuring default. *)
Definition request_maxResults (req : request) : Z := default 20 (req_maxResults req).

Definition request_sources (req : request) : list string := default [] (req_sources req).

(** The frame written when an iteration reaches a known source. *)
Definition announcement (source : string) : option frame :=
  if String.eqb source "linkedin" then Some (Progress "Searching LinkedIn..." 20)
  else if String.eqb source "naukri" then Some (Progress "Searching Naukri.com..." 40)
  else None.

(** ** Vocabulary of the statements *)

(** [k] is the ceiling of [m / n]: the least integer not below the quotient. *)
Definition is_ceiling (m : Z) (n : nat) (k : Z) : Prop :=
  m <= k * Z.of_nat n /\ forall k', m <= k' * Z.of_nat n -> k <= k'.

(** A computation that leaves the response object alone. *)
Definition keeps_res {A} (m : M A) : Prop :=
  forall s, st_res (snd (m s)) = st_res s.

(** The response [r'] is [r] with the frames [fs] written after its own,
    and nothing else touched. *)
Definition wrote (fs : list frame) (r r' : response) : Prop :=
  res_frames r' = (res_frames r ++ fs)%list
  /\ res_status r' = res_status r
  /\ res_json r' = res_json r
  /\ res_ended r' = res_ended r.

(** The enrichment properties of a job. *)
Definition enrichment_key (key : string) : bool :=
  String.eqb key "careerPageUrl" || String.eqb key "hrEmail".

(** A job as an extractor builds it: no enrichment property yet. *)
Definition unenriched (j : JobRecord) : Prop :=
  j !! "careerPageUrl" = None /\ j !! "hrEmail" = None.

(** What one round of the enrichment loop can make of a job: nothing
    (the career search threw), a [careerPageUrl] only (falsy, or the
    address lookup threw), or a truthy [careerPageUrl] and an [hrEmail]. *)
Inductive enrich_step (o : JobRecord) : JobRecord -> Prop :=
| step_nothing : enrich_step o o
| step_page (url : val) : enrich_step o (<["careerPageUrl" := url]> o)
| step_both (url email : val) :
    truthy url = true ->
    enrich_step o (<["hrEmail" := email]> (<["careerPageUrl" := url]> o)).

(** What an iteration keeps of the outcome of its extractor: the slice
    of what was returned, nothing of what was thrown. *)
Definition kept (rps : num) (o : outcome (list JobRecord)) : list JobRecord :=
  match o with
  | Ret sourceJobs => slice0 sourceJobs rps
  | Throw _ => []
  end.

(** What the iteration for [source], started in state [s], adds to
    [allJobs]. *)
Definition contribution (w : world) (keywords : string) (location : option string)
    (rps : num) (k : nat) (source : string) (s : state) : list JobRecord :=
  kept rps (fst (scrape_source w keywords location k source s)).

(** The outcomes of the extractor calls along the loop, one per source,
    each taken in the state its iteration starts in. *)
Fixpoint extractions (w : world) (keywords : string) (location : option string)
    (rps : num) (k : nat) (sources : list string) (s : state)
    : list (outcome (list JobRecord)) :=
  match sources with
  | [] => []
  | source :: rest =>
      fst (scrape_source w keywords location k source s)
      :: extractions w keywords location rps (S k) rest
           (snd (scrape_iteration w keywords location rps k source [] s))
  end.

(** The frames of a run that reaches the pipeline: the announcements of
    the known sources in the order of the request, the two fixed progress
    frames, and the list of jobs. *)
Definition stream_of (sources : list string) (final : list JobRecord) : list frame :=
  (omap announcement sources
   ++ [Progress "Finding career pages..." 60; Progress "Complete!" 100; Complete final])%list.

(** A session in which the page is opened from state [s]: a browser is
    cached or launches, and [newPage] succeeds. *)
Definition page_opens {D} (p : session D) (s : state) : bool :=
  (st_browser s || launch_ok p) && newPage_ok p.

(** The same byte, or the two cases of one letter: [A] to [Z] have the
    codes 65 to 90, and the small letter lies 32 above the capital. *)
Definition same_letter (a b : ascii) : Prop :=
  a = b
  \/ exists capital : N,
       (65 <= capital <= 90)%N
       /\ ((N_of_ascii a = capital /\ N_of_ascii b = capital + 32)
           \/ (N_of_ascii a = capital + 32 /\ N_of_ascii b = capital))%N.

(** One of the words hr, careers, recruitment, jobs, talent occurs in
    [email], in any mix of letter cases. *)
Definition mentions_role (email : string) : Prop :=
  exists word before inside after,
    word ∈ ["hr"; "careers"; "recruitment"; "jobs"; "talent"]
    /\ String.list_ascii_of_string email = (before ++ inside ++ after)%list
    /\ Forall2 same_letter inside (String.list_ascii_of_string word).

(** ** Vocabulary of the further properties *)

Definition is_launch (c : call) : bool :=
  match c with Launch => true | _ => false end.

Definition is_newPage (c : call) : bool :=
  match c with NewPage => true | _ => false end.

Definition is_closePage (c : call) : bool :=
  match c with ClosePage => true | _ => false end.

(** How many of the calls satisfy [f]. *)
Definition count (f : call -> bool) (calls : list call) : nat :=
  length (List.filter f calls).

(** What a piece of the service may do to the engine between two states:
    it only adds calls; it asks for at most [n] pages; it closes no more
    pages than it asked for; and with a browser cached it launches none
    and keeps the cached one. *)
Definition footprint (n : nat) (s s' : state) : Prop :=
  exists added,
    st_calls s' = (st_calls s ++ added)%list
    /\ (count is_newPage added <= n)%nat
    /\ (count is_closePage added <= count is_newPage added)%nat
    /\ (st_browser s = true -> st_browser s' = true /\ count is_launch added = O).

(** A computation whose effect on the engine stays within [footprint n],
    whatever state it starts in. *)
Definition within (n : nat) {A} (m : M A) : Prop :=
  forall s, footprint n s (snd (m s)).

(** [!!el] for an element that may be missing. *)
Definition present {A} (o : option A) : bool :=
  match o with Some _ => true | None => false end.

(** The cards the LinkedIn callback keeps: [titleEl && companyEl && linkEl]. *)
Definition linkedin_complete (c : linkedin_card) : bool :=
  present (li_title c) && present (li_company c) && present (li_link c).

(** The cards the Naukri callback keeps: [titleEl && companyEl]. *)
Definition naukri_complete (c : naukri_card) : bool :=
  present (nk_title c) && present (nk_company c).

(** A job as the extractor of [source] builds it: tagged with its source
    and with the status [scraped], and with an id, a title, a company, a
    location, a link and a posting date (the last one may be [null]). *)
Definition scraped_from (source : string) (j : JobRecord) : Prop :=
  j !! "source" = Some (VStr source)
  /\ j !! "status" = Some (VStr "scraped")
  /\ (exists id, j !! "id" = Some (VStr id))
  /\ (exists title, j !! "title" = Some (VStr title))
  /\ (exists company, j !! "company" = Some (VStr company))
  /\ (exists location, j !! "location" = Some (VStr location))
  /\ (exists jobUrl, j !! "jobUrl" = Some (VStr jobUrl))
  /\ is_Some (j !! "postedDate").

(** A string without the dash that separates the parts of an id. *)
Fixpoint dashless (s : string) : bool :=
  match s with
  | EmptyString => true
  | String c s' => negb (Ascii.eqb c "-"%char) && dashless s'
  end.

(** The shape of what the e-mail pattern matches: a non-empty local part
    of local bytes, the at sign, a non-empty domain of domain bytes, a
    dot, and at least two bytes that are letters or bars. *)
Definition address_shape (m : list ascii) : Prop :=
  exists local domain tld,
    m = (local ++ "@"%char :: domain ++ "."%char :: tld)%list
    /\ local <> [] /\ Forall (fun c => Regex.is_local c = true) local
    /\ domain <> [] /\ Forall (fun c => Regex.is_domain c = true) domain
    /\ (2 <= length tld)%nat /\ Forall (fun c => Regex.is_tld c = true) tld.

(** How many jobs an iteration with a positive [budget] keeps of the
    outcome of its extractor. *)
Definition kept_count (budget : Z) (o : outcome (list JobRecord)) : nat :=
  match o with
  | Ret sourceJobs => Nat.min (Z.to_nat budget) (length sourceJobs)
  | Throw _ => O
  end.

(** The calls a request for [keywords] in [location] may make, [merged]
    being the jobs its sources contributed: the first result page of
    either source with a 30 s limit and a 10 s wait for the results; for
    one of the first five jobs, a web search for the company of that very
    job followed by the word careers, and a visit to the non-empty
    address which the search for that job found, with a 15 s limit each;
    launching, opening and closing pages, setting the user agent and
    evaluating are free. *)
Definition expected_call (w : world) (keywords location : string)
    (merged : list JobRecord) (c : call) : Prop :=
  match c with
  | Goto (LinkedInSearch kw loc start) timeout =>
      kw = keywords /\ loc = location /\ start = 0 /\ timeout = 30000
  | Goto (NaukriSearch kw loc page) timeout =>
      kw = keywords /\ loc = location /\ page = 1 /\ timeout = 30000
  | Goto (GoogleSearch query) timeout =>
      timeout = 15000
      /\ exists i job, (i < 5)%nat /\ merged !! i = Some job
                       /\ query = to_string (job !! "company") +:+ " careers"
  | Goto (Direct url) timeout =>
      timeout = 15000 /\ url <> EmptyString
      /\ exists i, (i < 5)%nat /\ is_Some (merged !! i)
                   /\ evaluate_result (career_page w i) = Some (Some url)
  | WaitForSelector _ timeout => timeout = 10000
  | _ => True
  end.

(** A computation all of whose calls to the engine satisfy [Q]. *)
Definition emits (Q : call -> Prop) {A} (m : M A) : Prop :=
  forall s, exists added,
    st_calls (snd (m s)) = (st_calls s ++ added)%list /\ Forall Q added.

(** The id of a job built by the extractor of [source]: the source, the
    clock and the position of the card, joined by dashes. *)
Definition id_from (source : string) (j : JobRecord) : Prop :=
  exists (now : N) (index : nat),
    j !! "id" = Some (VStr (source +:+ "-" +:+ pretty now +:+ "-" +:+ pretty index)).

(** A session in which no call fails. *)
Definition healthy {D} (p : session D) : bool :=
  launch_ok p && newPage_ok p && setUserAgent_ok p && goto_ok p
  && waitForSelector_ok p && close_ok p.

(** ** Fixtures: concrete pages, worlds and requests *)

Module Fixture.

(** A session in which every call succeeds and the query sees [d]. *)
Definition answering {D} (d : D) : session D :=
  {| launch_ok := true; newPage_ok := true; setUserAgent_ok := true;
     goto_ok := true; waitForSelector_ok := true;
     evaluate_result := Some d; close_ok := true |}.

(** The results never show up: [waitForSelector] times out. *)
Definition timing_out {D} : session D :=
  {| launch_ok := true; newPage_ok := true; setUserAgent_ok := true;
     goto_ok := true; waitForSelector_ok := false;
     evaluate_result := None; close_ok := true |}.

(** The browser is there but refuses to open a page. *)
Definition no_page {D} : session D :=
  {| launch_ok := true; newPage_ok := false; setUserAgent_ok := true;
     goto_ok := true; waitForSelector_ok := true;
     evaluate_result := None; close_ok := true |}.

Definition li_card (title company : string) : linkedin_card :=
  {| li_now := 1700000000000%N; li_title := Some title; li_company := Some company;
     li_location := Some "Pune"; li_link := Some "https://www.linkedin.com/jobs/view/1";
     li_time := Some (Some "2024-01-15") |}.

Definition nk_card (title company : string) : naukri_card :=
  {| nk_now := 1700000000500%N; nk_title := Some (title, Some "https://www.naukri.com/job-1");
     nk_company := Some company; nk_location := Some "Delhi";
     nk_experience := Some "2-5 Yrs"; nk_date := Some "3 Days Ago";
     nk_first_link := Some "https://www.naukri.com/job-1" |}.

Definition seven_cards : list linkedin_card :=
  [ li_card "Backend Engineer" "Acme"; li_card "Platform Engineer" "Acme";
    li_card "Data Engineer" "Borealis"; li_card "SRE" "Cobalt";
    li_card "QA Engineer" "Dune"; li_card "Android Developer" "Ember";
    li_card "Web Developer" "Fjord" ].

Definition two_tuples : list naukri_card :=
  [ nk_card "Node Developer" "Garnet"; nk_card "Java Developer" "Helix" ].

Definition careers_text : string :=
  "Questions? Write to info@acme.example or to Careers@acme.example.".

(** Every page answers. *)
Definition calm : world :=
  {| linkedin_page := fun _ => answering seven_cards;
     naukri_page := fun _ => answering two_tuples;
     career_page := fun _ => answering (Some "https://acme.example/careers");
     email_page := fun _ => answering careers_text |}.

(** Naukri never shows its results; everything else answers. *)
Definition naukri_down : world :=
  {| linkedin_page := fun _ => answering seven_cards;
     naukri_page := fun _ => timing_out;
     career_page := fun _ => answering (Some "https://acme.example/careers");
     email_page := fun _ => answering careers_text |}.

Definition scrape (sources : list string) (maxResults : option Z) : request :=
  {| req_keywords := Some "backend engineer"; req_location := None;
     req_sources := Some sources; req_maxResults := maxResults |}.

Definition no_keywords : request :=
  {| req_keywords := None; req_location := Some "Pune";
     req_sources := Some ["linkedin"]; req_maxResults := Some 10 |}.

(** A state in which the browser of an earlier request is cached. *)
Definition warm : state :=
  {| st_browser := true; st_calls := [Launch]; st_console := [];
     st_res := fresh_response |}.

End Fixture.

(** * Properties *)

(** ** The monad: which computations leave the response alone *)

Section ResponseUntouched.

Context {A B : Type}.

Lemma keeps_res_ret (a : A) : keeps_res (ret a).
Proof. intros s. reflexivity. Qed.

Lemma keeps_res_throw (e : error) : keeps_res (@throw A e).
Proof. intros s. reflexivity. Qed.

Lemma keeps_res_bind (m : M A) (k : A -> M B) :
  keeps_res m -> (forall a, keeps_res (k a)) -> keeps_res (bind m k).
Proof.
  intros Hm Hk s. unfold bind. specialize (Hm s).
  destruct (m s) as [[a | e] s'] eqn:E; simpl in *.
  - rewrite Hk. exact Hm.
  - exact Hm.
Qed.

Lemma keeps_res_try_catch (m : M A) (h : error -> M A) :
  keeps_res m -> (forall e, keeps_res (h e)) -> keeps_res (try_catch m h).
Proof.
  intros Hm Hh s. unfold try_catch. specialize (Hm s).
  destruct (m s) as [[a | e] s'] eqn:E; simpl in *.
  - exact Hm.
  - rewrite Hh. exact Hm.
Qed.

Lemma keeps_res_try_finally (m : M A) (fin : M unit) :
  keeps_res m -> keeps_res fin -> keeps_res (try_finally m fin).
Proof.
  intros Hm Hf s. unfold try_finally. specialize (Hm s).
  destruct (m s) as [r s'] eqn:E. specialize (Hf s').
  destruct (fin s') as [[u | e] s''] eqn:F; simpl in *; congruence.
Qed.

End ResponseUntouched.

Lemma keeps_res_console_error line : keeps_res (console_error line).
Proof. intros s. reflexivity. Qed.

Lemma keeps_res_engine_call c ok e : keeps_res (engine_call c ok e).
Proof. intros s. reflexivity. Qed.

Lemma keeps_res_getBrowser {D} (p : session D) : keeps_res (getBrowser p).
Proof.
  intros s. unfold getBrowser.
  destruct (st_browser s); [reflexivity |].
  destruct (launch_ok p); reflexivity.
Qed.

Lemma keeps_res_evaluate {D} (p : session D) : keeps_res (evaluate p).
Proof. intros s. reflexivity. Qed.

Create HintDb quiet.
#[local] Hint Resolve keeps_res_ret keeps_res_throw keeps_res_console_error
  keeps_res_engine_call keeps_res_getBrowser keeps_res_evaluate : quiet.
#[local] Hint Extern 2 (keeps_res (bind _ _)) =>
  apply keeps_res_bind; [| intros ?] : quiet.
#[local] Hint Extern 2 (keeps_res (try_catch _ _)) =>
  apply keeps_res_try_catch; [| intros ?] : quiet.
#[local] Hint Extern 2 (keeps_res (try_finally _ _)) =>
  apply keeps_res_try_finally : quiet.
#[local] Hint Unfold newPage setUserAgent goto waitForSelector closePage : quiet.

Ltac quiet := unfold newPage, setUserAgent, goto, waitForSelector, closePage;
              auto 20 with quiet.

Lemma keeps_res_scrapeLinkedIn p keywords location page :
  keeps_res (scrapeLinkedIn p keywords location page).
Proof. unfold scrapeLinkedIn. quiet. Qed.

Lemma keeps_res_scrapeNaukri p keywords location page :
  keeps_res (scrapeNaukri p keywords location page).
Proof. unfold scrapeNaukri. quiet. Qed.

Lemma keeps_res_findCareerPage p companyName :
  keeps_res (findCareerPage p companyName).
Proof. unfold findCareerPage. quiet. Qed.

Lemma keeps_res_findHREmail p url : keeps_res (findHREmail p url).
Proof.
  unfold findHREmail. destruct url as [| [| a u]]; quiet.
Qed.

(** ** Arithmetic of the per-source budget *)

Lemma Qceiling_fraction (m : Z) (d : positive) :
  (Qceiling (m # d) - 1) * Z.pos d < m <= Qceiling (m # d) * Z.pos d.
Proof.
  unfold Qceiling, Qfloor. simpl.
  pose proof (Z.div_mod (- m) (Z.pos d) ltac:(lia)) as Hdm.
  pose proof (Z.mod_pos_bound (- m) (Z.pos d) ltac:(lia)) as Hb.
  nia.
Qed.

Lemma is_ceiling_unique m n k k' : is_ceiling m n k -> is_ceiling m n k' -> k = k'.
Proof.
  intros [H1 L1] [H2 L2]. specialize (L1 _ H2). specialize (L2 _ H1). lia.
Qed.

Lemma is_ceiling_bounds m n k :
  (0 < n)%nat -> is_ceiling m n k <-> (k - 1) * Z.of_nat n < m <= k * Z.of_nat n.
Proof.
  intros Hn. split.
  - intros [H L]. split; [| exact H].
    destruct (Z_lt_le_dec ((k - 1) * Z.of_nat n) m) as [| Hle]; [assumption |].
    specialize (L (k - 1) Hle). lia.
  - intros [Hlo Hhi]. split; [exact Hhi |]. intros k' Hk'. nia.
Qed.

Lemma resultsPerSource_ceiling (m : Z) (sources : list string) :
  sources <> [] ->
  exists k, resultsPerSource m sources = Num (inject_Z k)
            /\ is_ceiling m (length sources) k.
Proof.
  intros Hne. destruct sources as [| source rest]; [congruence |].
  exists (Qceiling (m # Pos.of_nat (length (source :: rest)))). split; [reflexivity |].
  apply is_ceiling_bounds; [simpl; lia |].
  pose proof (Qceiling_fraction m (Pos.of_nat (length (source :: rest)))) as H.
  replace (Z.pos (Pos.of_nat (length (source :: rest))))
    with (Z.of_nat (length (source :: rest))) in H; [exact H |].
  simpl length. lia.
Qed.

(** ** The rounded quotient and the exact one *)

Section Binary64Facts.
Import Binary64.

Lemma up_nonneg p : 0 <= p -> up p = 2 ^ p /\ down p = 1.
Proof.
  intros Hp. unfold up, down.
  rewrite Z.max_l by lia. rewrite Z.max_r by lia. split; reflexivity.
Qed.

Lemma up_neg p : p <= 0 -> up p = 1 /\ down p = 2 ^ (- p).
Proof.
  intros Hp. unfold up, down.
  rewrite Z.max_r by lia. rewrite Z.max_l by lia. split; reflexivity.
Qed.

(** The exponent is at most that of the dividend, and [2^e] is at most
    the quotient. *)
Lemma exponent_below a b :
  0 < a -> 0 < b ->
  exponent a b <= Z.log2 a /\ b * up (exponent a b) <= a * down (exponent a b).
Proof.
  intros Ha Hb.
  pose proof (Z.log2_nonneg b) as Hlb.
  pose proof (Z.log2_nonneg a) as Hla.
  unfold exponent. cbv zeta.
  destruct (Z.leb_spec (b * up (Z.log2 a - Z.log2 b)) (a * down (Z.log2 a - Z.log2 b)))
    as [Hle | Hgt].
  - split; [lia | exact Hle].
  - split; [lia |].
    destruct (Z.log2_spec a Ha) as [Ha1 _].
    destruct (Z.log2_spec b Hb) as [_ Hb2].
    destruct (Z_le_gt_dec 0 (Z.log2 a - Z.log2 b - 1)) as [Hd | Hd].
    + destruct (up_nonneg _ Hd) as [-> ->].
      assert (Hpow : 2 ^ Z.log2 a = 2 ^ Z.succ (Z.log2 b) * 2 ^ (Z.log2 a - Z.log2 b - 1)).
      { rewrite <- Z.pow_add_r by lia. f_equal. lia. }
      assert (0 < 2 ^ (Z.log2 a - Z.log2 b - 1)) by (apply Z.pow_pos_nonneg; lia).
      nia.
    + destruct (up_neg (Z.log2 a - Z.log2 b - 1) ltac:(lia)) as [-> ->].
      assert (Hpow : 2 ^ Z.succ (Z.log2 b) = 2 ^ Z.log2 a * 2 ^ (- (Z.log2 a - Z.log2 b - 1))).
      { rewrite <- Z.pow_add_r by lia. f_equal. lia. }
      assert (0 < 2 ^ Z.log2 a) by (apply Z.pow_pos_nonneg; lia).
      assert (0 < 2 ^ (- (Z.log2 a - Z.log2 b - 1))) by (apply Z.pow_pos_nonneg; lia).
      nia.
Qed.

(** Below [2^53] the scale of the quotient is a power [P] of two with
    the divisor under [2 P]. *)
Lemma scale_of_small_dividend a b :
  0 < a < 2 ^ 53 -> 0 < b ->
  exists P, 0 < P /\ up (52 - exponent a b) = P /\ down (52 - exponent a b) = 1 /\ b < 2 * P.
Proof.
  intros [Ha Ha53] Hb.
  destruct (exponent_below a b Ha Hb) as [He Hlow].
  assert (Hl : Z.log2 a < 53) by (apply Z.log2_lt_pow2; lia).
  set (e := exponent a b) in *.
  destruct (up_nonneg (52 - e) ltac:(lia)) as [Hup Hdown].
  exists (2 ^ (52 - e)). split; [apply Z.pow_pos_nonneg; lia |].
  split; [exact Hup |]. split; [exact Hdown |].
  assert (HP : 0 < 2 ^ (52 - e)) by (apply Z.pow_pos_nonneg; lia).
  destruct (Z_le_gt_dec 0 e) as [Hs | Hs].
  - destruct (up_nonneg e Hs) as [Hu Hd]. rewrite Hu, Hd in Hlow.
    assert (Hpow : 2 ^ 53 = 2 ^ e * (2 * 2 ^ (52 - e))).
    { replace (2 * 2 ^ (52 - e)) with (2 ^ (53 - e)).
      - rewrite <- Z.pow_add_r by lia. f_equal. lia.
      - replace (53 - e) with (Z.succ (52 - e)) by lia.
        rewrite Z.pow_succ_r by lia. reflexivity. }
    assert (0 < 2 ^ e) by (apply Z.pow_pos_nonneg; lia).
    nia.
  - destruct (up_neg e ltac:(lia)) as [Hu Hd]. rewrite Hu, Hd in Hlow.
    assert (Hpow : 2 * 2 ^ (52 - e) = 2 ^ 53 * 2 ^ (- e)).
    { rewrite <- Z.pow_add_r by lia.
      replace (53 + - e) with (Z.succ (52 - e)) by lia.
      rewrite Z.pow_succ_r by lia. reflexivity. }
    assert (0 < 2 ^ (- e)) by (apply Z.pow_pos_nonneg; lia).
    nia.
Qed.

(** Rounding at such a scale moves neither the floor nor the ceiling
    of the quotient. *)
Lemma nearest_even_keeps_the_integer_part a b P :
  0 < a -> 0 < b -> 0 < P -> b < 2 * P ->
  let k := nearest_even (a * P) b in
  k / P = a / b /\ - (- k / P) = - (- a / b).
Proof.
  intros Ha Hb HP Hsmall k.
  pose proof (Z.div_mod a b ltac:(lia)) as Hab.
  pose proof (Z.mod_pos_bound a b Hb) as Hrem.
  pose proof (Z.div_mod (a * P) b ltac:(lia)) as HaP.
  pose proof (Z.mod_pos_bound (a * P) b Hb) as Hr.
  set (K := a / b) in *. set (rem := a mod b) in *.
  assert (Hk : k = nearest_even (a * P) b) by reflexivity.
  unfold nearest_even in Hk. cbv zeta in Hk.
  set (f := a * P / b) in *. set (r := (a * P) mod b) in *.
  destruct (Z.eq_dec rem 0) as [H0 | H0].
  - assert (Hf : f = K * P).
    { subst f. rewrite Hab, H0, Z.add_0_r.
      replace (b * K * P) with (K * P * b) by ring.
      apply Z.div_mul. lia. }
    assert (Hr0 : r = 0) by nia.
    rewrite Hr0 in Hk.
    replace (2 * 0 ?= b) with Lt in Hk by (symmetry; apply Z.compare_lt_iff; lia).
    rewrite Hk, Hf.
    assert (Ha' : a = K * b) by lia.
    rewrite Ha'.
    rewrite <- !Z.mul_opp_l.
    rewrite !Z.div_mul by lia. split; reflexivity.
  - assert (Hrem' : 0 < rem < b) by lia.
    assert (HfK : K * P <= f <= (K + 1) * P - 1) by nia.
    assert (Hbounds : K * P + 1 <= k <= (K + 1) * P - 1).
    { destruct (Z.compare_spec (2 * r) b) as [He | Hl | Hg].
      - assert (f <> K * P) by nia.
        assert (f + 1 <> (K + 1) * P) by nia.
        destruct (Z.even f); lia.
      - assert (f <> K * P) by nia. lia.
      - assert (f + 1 <> (K + 1) * P) by nia. lia. }
    clear Hk.
    split.
    + symmetry. apply (Z.div_unique_pos k P K (k - K * P)); lia.
    + assert (Hc1 : - k / P = - (K + 1)).
      { symmetry. apply (Z.div_unique_pos (- k) P (- (K + 1)) ((K + 1) * P - k)); lia. }
      assert (Hc2 : - a / b = - (K + 1)).
      { symmetry. apply (Z.div_unique_pos (- a) b (- (K + 1)) (b - rem)); lia. }
      rewrite Hc1, Hc2. reflexivity.
Qed.

Lemma round_positive_small a b :
  (0 < Zpos a < 2 ^ 53)%Z ->
  Qfloor (round_positive (Zpos a) (Zpos b)) = Qfloor (Zpos a # b)
  /\ Qceiling (round_positive (Zpos a) (Zpos b)) = Qceiling (Zpos a # b).
Proof.
  intros Ha.
  destruct (scale_of_small_dividend (Zpos a) (Zpos b) Ha ltac:(lia))
    as (P & HP & Hup & Hdown & Hsmall).
  destruct (nearest_even_keeps_the_integer_part (Zpos a) (Zpos b) P
              ltac:(lia) ltac:(lia) HP Hsmall) as [Hfl Hce].
  unfold round_positive. cbv zeta. rewrite Hup, Hdown.
  rewrite !Z.mul_1_r.
  unfold Qceiling, Qfloor, Qopp. cbn [Qnum Qden].
  rewrite Z2Pos.id by exact HP.
  split; [exact Hfl | exact Hce].
Qed.

End Binary64Facts.

(** For a dividend below [2^53] in size, rounding the quotient to a
    double leaves [Math.ceil] of it where it is. *)
Lemma resultsPerSource64_exact maxResults sources :
  - 2 ^ 53 < maxResults < 2 ^ 53 ->
  resultsPerSource64 maxResults sources = resultsPerSource maxResults sources.
Proof.
  intros Hm. unfold resultsPerSource64, resultsPerSource, Binary64.div, div.
  destruct (length sources) as [| n]; [destruct (0 <? maxResults), (maxResults <? 0); reflexivity |].
  cbn [ceil]. do 2 f_equal.
  unfold Binary64.round. cbn [Qnum Qden].
  destruct maxResults as [| a | a].
  - reflexivity.
  - apply round_positive_small. lia.
  - destruct (round_positive_small a (Pos.of_nat (S n)) ltac:(lia)) as [Hfl _].
    unfold Qceiling.
    rewrite (Qfloor_comp _ _ (Qopp_involutive _)). rewrite Hfl.
    reflexivity.
Qed.

(** The rounding above against the Standard Library's specification of
    IEEE 754 division: every dividend from -400 to 400 over every divisor
    from 1 to 40, and dividends around [2^53] and beyond. *)
Lemma round_agrees_with_the_reference :
  forallb (fun m => forallb (Binary64.agrees m) (seqZ 1 40)) (seqZ (-400) 801) = true
  /\ forallb (fun m => forallb (Binary64.agrees m) [1; 2; 3; 5; 6; 7; 10; 12])
       [9007199254740991; 9007199254740992; 9007199254740994; -9007199254740991;
        13510798882111492; -13510798882111490; 18014398509481984;
        4611686018427387904; 1606938044258990275541962092341162602522202993782792835301376]
     = true.
Proof. split; vm_compute; reflexivity. Qed.

(** ** [slice] *)

Lemma slice0_integer {A} (arr : list A) (k : Z) :
  slice0 arr (Num (inject_Z k)) =
  take (Z.to_nat (if k <? 0 then Z.max (Z.of_nat (length arr) + k) 0
                  else Z.min k (Z.of_nat (length arr)))) arr.
Proof.
  unfold slice0, to_integer.
  destruct (Qle_bool 0 (inject_Z k));
    rewrite ?Qfloor_Z, ?Qceiling_Z, ?Qfloor_Z; reflexivity.
Qed.

Lemma slice0_prefix {A} (arr : list A) (e : num) : exists n, slice0 arr e = take n arr.
Proof. unfold slice0. eexists. reflexivity. Qed.

Lemma slice0_length {A} (arr : list A) (k : Z) :
  0 <= k -> Z.of_nat (length (slice0 arr (Num (inject_Z k)))) = Z.min k (Z.of_nat (length arr)).
Proof.
  intros Hk. rewrite slice0_integer.
  destruct (Z.ltb_spec k 0); [lia |].
  rewrite length_take. lia.
Qed.

Lemma slice0_Forall {A} (P : A -> Prop) (arr : list A) (e : num) :
  Forall P arr -> Forall P (slice0 arr e).
Proof.
  intros H. destruct (slice0_prefix arr e) as [n ->]. by apply Forall_take.
Qed.

(** ** What the extractors return *)

Lemma linkedin_job_unenriched index c j : linkedin_job index c = Some j -> unenriched j.
Proof.
  unfold linkedin_job.
  destruct (li_title c), (li_company c), (li_link c); try discriminate.
  intros [= <-]. split; reflexivity.
Qed.

Lemma naukri_job_unenriched index c j : naukri_job index c = Some j -> unenriched j.
Proof.
  unfold naukri_job.
  destruct (nk_title c) as [[title href] |], (nk_company c); try discriminate.
  intros [= <-]. split; reflexivity.
Qed.

Lemma linkedin_jobs_unenriched cards : Forall unenriched (linkedin_jobs cards).
Proof.
  apply Forall_forall. intros j Hj. unfold linkedin_jobs in Hj.
  apply list_elem_of_omap in Hj as (o & Ho & Hid).
  apply elem_of_lookup_imap in Ho as (i & c & -> & _).
  eapply linkedin_job_unenriched. exact Hid.
Qed.

Lemma naukri_jobs_unenriched cards : Forall unenriched (naukri_jobs cards).
Proof.
  apply Forall_forall. intros j Hj. unfold naukri_jobs in Hj.
  apply list_elem_of_omap in Hj as (o & Ho & Hid).
  apply elem_of_lookup_imap in Ho as (i & c & -> & _).
  eapply naukri_job_unenriched. exact Hid.
Qed.

Ltac run_session p s :=
  destruct p as [[] [] [] [] [] [?|] []]; destruct (st_browser s) eqn:?;
  cbv [scrapeLinkedIn scrapeNaukri findCareerPage findHREmail bind try_finally
       try_catch getBrowser newPage setUserAgent goto waitForSelector evaluate
       closePage engine_call console_error ret throw
       launch_ok newPage_ok setUserAgent_ok goto_ok waitForSelector_ok
       evaluate_result close_ok page_opens];
  repeat match goal with H : st_browser _ = _ |- _ => rewrite ?H end;
  cbv [st_browser set_browser log_call orb andb].

Lemma scrapeLinkedIn_ret p keywords location page s jobs s' :
  scrapeLinkedIn p keywords location page s = (Ret jobs, s') ->
  exists cards, evaluate_result p = Some cards /\ jobs = linkedin_jobs cards.
Proof.
  run_session p s; intros [= <- <-] || intros [=]; eauto.
Qed.

Lemma scrapeNaukri_ret p keywords location page s jobs s' :
  scrapeNaukri p keywords location page s = (Ret jobs, s') ->
  exists cards, evaluate_result p = Some cards /\ jobs = naukri_jobs cards.
Proof.
  run_session p s; intros [= <- <-] || intros [=]; eauto.
Qed.

(** ** The dispatch loop *)

Lemma wrote_refl r : wrote [] r r.
Proof. unfold wrote. rewrite app_nil_r. auto. Qed.

Lemma wrote_trans fs gs r1 r2 r3 :
  wrote fs r1 r2 -> wrote gs r2 r3 -> wrote (fs ++ gs)%list r1 r3.
Proof.
  intros (F1 & S1 & J1 & E1) (F2 & S2 & J2 & E2). unfold wrote.
  rewrite F2, F1, S2, S1, J2, J1, E2, E1, app_assoc. auto.
Qed.

Lemma res_write_wrote f s : wrote [f] (st_res s) (st_res (snd (res_write f s))).
Proof. unfold wrote. simpl. auto. Qed.

Lemma scrape_source_wrote w keywords location k source s :
  wrote (option_list (announcement source)) (st_res s)
        (st_res (snd (scrape_source w keywords location k source s))).
Proof.
  unfold scrape_source, announcement.
  destruct (String.eqb source "linkedin"); [| destruct (String.eqb source "naukri")].
  - unfold bind at 1. simpl.
    rewrite keeps_res_scrapeLinkedIn. apply res_write_wrote.
  - unfold bind at 1. simpl.
    rewrite keeps_res_scrapeNaukri. apply res_write_wrote.
  - apply wrote_refl.
Qed.

Lemma scrape_source_unenriched w keywords location k source s jobs s' :
  scrape_source w keywords location k source s = (Ret jobs, s') ->
  Forall unenriched jobs.
Proof.
  unfold scrape_source.
  destruct (String.eqb source "linkedin"); [| destruct (String.eqb source "naukri")].
  - unfold bind at 1. simpl. intros H.
    apply scrapeLinkedIn_ret in H as (cards & _ & ->). apply linkedin_jobs_unenriched.
  - unfold bind at 1. simpl. intros H.
    apply scrapeNaukri_ret in H as (cards & _ & ->). apply naukri_jobs_unenriched.
  - intros [= <- _]. constructor.
Qed.

(** One iteration never throws: it appends the contribution of its
    source and leaves what was merged before in place. *)
Lemma scrape_iteration_run w keywords location rps k source allJobs s :
  exists s',
    scrape_iteration w keywords location rps k source allJobs s
    = (Ret (allJobs ++ contribution w keywords location rps k source s)%list, s')
    /\ wrote (option_list (announcement source)) (st_res s) (st_res s').
Proof.
  unfold scrape_iteration, contribution, try_catch, bind.
  pose proof (scrape_source_wrote w keywords location k source s) as Hw.
  destruct (scrape_source w keywords location k source s) as [[jobs | e] s1]; simpl in *.
  - eexists. split; [reflexivity | exact Hw].
  - eexists. rewrite app_nil_r. split; [reflexivity | exact Hw].
Qed.

Lemma contribution_unenriched w keywords location rps k source s :
  Forall unenriched (contribution w keywords location rps k source s).
Proof.
  unfold contribution.
  destruct (scrape_source w keywords location k source s) as [[jobs | e] s1] eqn:E; simpl.
  - apply slice0_Forall. eapply scrape_source_unenriched. exact E.
  - constructor.
Qed.

Lemma contribution_length w keywords location K k source s :
  0 <= K ->
  Z.of_nat (length (contribution w keywords location (Num (inject_Z K)) k source s)) <= K.
Proof.
  intros HK. unfold contribution.
  destruct (fst (scrape_source w keywords location k source s)) as [jobs | e]; simpl kept.
  - rewrite slice0_length by exact HK. lia.
  - simpl. lia.
Qed.

(** The loop never throws; it extends [allJobs] and announces the known
    sources in the order of the list. *)
Lemma scrape_loop_run w keywords location rps sources :
  forall k allJobs s,
  exists jobs s',
    scrape_loop w keywords location rps k sources allJobs s = (Ret (allJobs ++ jobs)%list, s')
    /\ wrote (omap announcement sources) (st_res s) (st_res s')
    /\ Forall unenriched jobs
    /\ (forall K, 0 <= K -> rps = Num (inject_Z K) ->
        Z.of_nat (length jobs) <= Z.of_nat (length sources) * K).
Proof.
  induction sources as [| source rest IH]; intros k allJobs s.
  - exists [], s. simpl. rewrite app_nil_r. split; [| split; [| split]].
    + reflexivity.
    + apply wrote_refl.
    + constructor.
    + intros; simpl; lia.
  - destruct (scrape_iteration_run w keywords location rps k source allJobs s)
      as (s1 & Hit & Hw1).
    destruct (IH (S k) (allJobs ++ contribution w keywords location rps k source s)%list s1)
      as (jobs & s' & Hloop & Hw2 & Hraw & Hlen).
    exists (contribution w keywords location rps k source s ++ jobs)%list, s'.
    split; [| split; [| split]].
    + simpl. unfold bind. rewrite Hit, Hloop. by rewrite app_assoc.
    + replace (omap announcement (source :: rest))
        with (option_list (announcement source) ++ omap announcement rest)%list
        by (simpl; destruct (announcement source); reflexivity).
      eapply wrote_trans; eassumption.
    + apply Forall_app. split; [apply contribution_unenriched | exact Hraw].
    + intros K HK ->. specialize (Hlen K HK eq_refl).
      pose proof (contribution_length w keywords location K k source s HK).
      rewrite length_app. simpl length. lia.
Qed.

(** ** The enrichment loop *)

(** One round never throws, leaves the response alone and touches the
    job at index [i] only. *)
Lemma enrich_iteration_run w i (allJobs : list JobRecord) s job :
  allJobs !! i = Some job ->
  exists job' s',
    enrich_iteration w i allJobs s = (Ret (<[i := job']> allJobs), s')
    /\ st_res s' = st_res s
    /\ enrich_step job job'.
Proof.
  intros Hi. unfold enrich_iteration. rewrite Hi.
  unfold try_catch at 1. unfold bind at 1.
  pose proof (keeps_res_findCareerPage (career_page w i) (to_string (job !! "company")) s) as H1.
  destruct (findCareerPage _ _ s) as [[url | e] s1]; simpl in H1.
  - destruct (truthy url) eqn:T.
    + unfold try_catch, bind.
      pose proof (keeps_res_findHREmail (email_page w i) url s1) as H2.
      destruct (findHREmail _ _ s1) as [[email | e] s2]; simpl in H2.
      * eexists _, s2. split; [| split].
        -- unfold ret. rewrite list_insert_insert_eq. reflexivity.
        -- congruence.
        -- by apply step_both.
      * eexists _, _. split; [| split].
        -- reflexivity.
        -- simpl. congruence.
        -- apply step_page.
    + eexists _, s1. split; [| split].
      * reflexivity.
      * exact H1.
      * apply step_page.
  - exists job. eexists. split; [| split].
    + simpl. rewrite list_insert_id by exact Hi. reflexivity.
    + simpl. exact H1.
    + apply step_nothing.
Qed.

(** The loop: it never throws, keeps the response and the length, leaves
    alone what lies before [i] and from index 5 on, and gives every other
    job at most one round. *)
Lemma enrich_loop_run w :
  forall fuel i (cur : list JobRecord) s,
  exists cur' s',
    enrich_loop w fuel i cur s = (Ret cur', s')
    /\ st_res s' = st_res s
    /\ length cur' = length cur
    /\ (forall j, (j < i \/ 5 <= j)%nat -> cur' !! j = cur !! j)
    /\ (forall j o, cur !! j = Some o -> exists c, cur' !! j = Some c /\ enrich_step o c).
Proof.
  induction fuel as [| fuel IH]; intros i cur s.
  - exists cur, s. simpl. repeat split; eauto using step_nothing.
  - simpl. destruct (Nat.ltb_spec i (Nat.min (length cur) 5)) as [Hlt | Hge].
    + destruct (lookup_lt_is_Some_2 cur i ltac:(lia)) as [job Hjob].
      destruct (enrich_iteration_run w i cur s job Hjob) as (job' & s1 & Hit & Hres & Hstep).
      destruct (IH (S i) (<[i := job']> cur) s1) as (cur' & s' & Hloop & Hres' & Hlen & Hout & Hin).
      exists cur', s'. unfold bind. rewrite Hit, Hloop.
      split; [reflexivity |]. split; [congruence |].
      split; [by rewrite Hlen, length_insert |]. split.
      * intros j Hj. rewrite Hout by lia. apply list_lookup_insert_ne. lia.
      * intros j o Ho. destruct (decide (j = i)) as [-> | Hne].
        -- exists job'. rewrite Hout by lia.
           rewrite list_lookup_insert_eq by lia.
           split; [reflexivity |]. congruence.
        -- apply Hin. rewrite list_lookup_insert_ne by congruence. exact Ho.
    + exists cur, s. repeat split; eauto using step_nothing.
Qed.

(** Five rounds of fuel are never used up before the test fails: more
    fuel changes nothing. *)
Lemma enrich_loop_fuel w fuel i (cur : list JobRecord) s :
  (5 <= fuel + i)%nat -> enrich_loop w (S fuel) i cur s = enrich_loop w fuel i cur s.
Proof.
  revert i cur s. induction fuel as [| fuel IH]; intros i cur s Hi.
  - simpl. destruct (Nat.ltb_spec i (Nat.min (length cur) 5)); [lia | reflexivity].
  - change (enrich_loop w (S (S fuel)) i cur s)
      with ((if (i <? Nat.min (length cur) 5)%nat
             then bind (enrich_iteration w i cur) (fun a => enrich_loop w (S fuel) (S i) a)
             else ret cur) s).
    change (enrich_loop w (S fuel) i cur s)
      with ((if (i <? Nat.min (length cur) 5)%nat
             then bind (enrich_iteration w i cur) (fun a => enrich_loop w fuel (S i) a)
             else ret cur) s).
    destruct (i <? Nat.min (length cur) 5)%nat; [| reflexivity].
    unfold bind. destruct (enrich_iteration w i cur s) as [[a | e] s1]; [| reflexivity].
    apply IH. lia.
Qed.

Lemma enrich_run w (allJobs : list JobRecord) s :
  exists final s',
    enrich w allJobs s = (Ret final, s')
    /\ st_res s' = st_res s
    /\ length final = length allJobs
    /\ (forall j, (5 <= j)%nat -> final !! j = allJobs !! j)
    /\ (forall j o, allJobs !! j = Some o -> exists c, final !! j = Some c /\ enrich_step o c).
Proof.
  destruct (enrich_loop_run w 5 0 allJobs s) as (final & s' & H & Hres & Hlen & Hout & Hin).
  exists final, s'. split; [exact H |]. split; [exact Hres |].
  split; [exact Hlen |]. split; [| exact Hin].
  intros j Hj. apply Hout. lia.
Qed.

(** ** Properties of one enrichment round *)

Lemma enrich_step_frame o c key :
  enrich_step o c -> enrichment_key key = false -> c !! key = o !! key.
Proof.
  unfold enrichment_key. intros Hstep Hkey.
  apply orb_false_iff in Hkey as [Hc Hh].
  apply String.eqb_neq in Hc, Hh.
  destruct Hstep.
  - reflexivity.
  - by rewrite lookup_insert_ne.
  - by rewrite !lookup_insert_ne.
Qed.

Lemma enrich_step_email o c email :
  o !! "hrEmail" = None -> enrich_step o c -> c !! "hrEmail" = Some email ->
  exists a u, c !! "careerPageUrl" = Some (VStr (String a u)).
Proof.
  intros Ho Hstep Hc. destruct Hstep as [| url | url email' Hurl].
  - congruence.
  - rewrite lookup_insert_ne in Hc by discriminate. congruence.
  - destruct url as [| [| a u]]; try discriminate.
    exists a, u. rewrite lookup_insert_ne by discriminate.
    apply lookup_insert_eq.
Qed.

(** ** The merged list as the concatenation of what was kept *)

Lemma scrape_iteration_state w keywords location rps k source allJobs s :
  snd (scrape_iteration w keywords location rps k source allJobs s)
  = snd (scrape_iteration w keywords location rps k source [] s).
Proof.
  unfold scrape_iteration, try_catch, bind.
  destruct (scrape_source w keywords location k source s) as [[jobs | e] s1]; reflexivity.
Qed.

Lemma scrape_loop_extractions w keywords location rps sources :
  forall k allJobs s,
  exists s',
    scrape_loop w keywords location rps k sources allJobs s
    = (Ret (allJobs ++ concat (map (kept rps)
              (extractions w keywords location rps k sources s)))%list, s').
Proof.
  induction sources as [| source rest IH]; intros k allJobs s.
  - exists s. simpl. by rewrite app_nil_r.
  - destruct (scrape_iteration_run w keywords location rps k source allJobs s)
      as (s1 & Hit & _).
    assert (s1 = snd (scrape_iteration w keywords location rps k source [] s)) as Hs1.
    { rewrite <- (scrape_iteration_state _ _ _ _ _ _ allJobs), Hit. reflexivity. }
    destruct (IH (S k) (allJobs ++ contribution w keywords location rps k source s)%list s1)
      as (s' & Hloop).
    exists s'. simpl. unfold bind. rewrite Hit, Hloop, <- Hs1, <- app_assoc.
    reflexivity.
Qed.

Lemma length_extractions w keywords location rps sources :
  forall k s, length (extractions w keywords location rps k sources s) = length sources.
Proof.
  induction sources as [| source rest IH]; intros k s; simpl; [reflexivity |].
  by rewrite IH.
Qed.

(** ** The frames of a stream *)

Lemma announcement_progress source f :
  announcement source = Some f ->
  exists message p, f = Progress message p /\ (p = 20 \/ p = 40).
Proof.
  unfold announcement.
  destruct (String.eqb source "linkedin"); [| destruct (String.eqb source "naukri")];
    intros [= <-]; eauto.
Qed.

Lemma complete_events_announcements sources :
  complete_events (omap announcement sources) = [].
Proof.
  unfold complete_events. induction sources as [| source rest IH]; [reflexivity |].
  simpl. destruct (announcement source) as [f |] eqn:E; [| exact IH].
  apply announcement_progress in E as (message & p & -> & _). simpl. exact IH.
Qed.

Lemma complete_events_stream sources final :
  complete_events (stream_of sources final) = [final].
Proof.
  unfold stream_of, complete_events. rewrite omap_app.
  fold (complete_events (omap announcement sources)).
  rewrite complete_events_announcements. reflexivity.
Qed.

Lemma progress_values_stream sources final :
  progress_values (stream_of sources final)
  = (progress_values (omap announcement sources) ++ [60; 100])%list.
Proof. unfold stream_of, progress_values. rewrite omap_app. reflexivity. Qed.

(** Every frame of a stream but the last is a progress frame, and the
    last one carries the jobs. *)
Lemma stream_shape sources final :
  exists progress_frames,
    stream_of sources final = (progress_frames ++ [Complete final])%list
    /\ Forall (fun f => exists message p, f = Progress message p) progress_frames.
Proof.
  exists (omap announcement sources
          ++ [Progress "Finding career pages..." 60; Progress "Complete!" 100])%list.
  split.
  - unfold stream_of. rewrite <- app_assoc. reflexivity.
  - apply Forall_app. split.
    + apply Forall_forall. intros f Hf.
      apply list_elem_of_omap in Hf as (source & _ & Hs).
      apply announcement_progress in Hs as (message & p & -> & _). eauto.
    + repeat constructor; eauto.
Qed.

(** ** The handler, stage by stage *)

Lemma pipeline_run w keywords location maxResults sources s :
  let rps := resultsPerSource maxResults sources in
  let merged := concat (map (kept rps) (extractions w keywords location rps 0 sources s)) in
  exists final s',
    pipeline w keywords location maxResults sources s = (Ret tt, s')
    /\ res_frames (st_res s') = (res_frames (st_res s) ++ stream_of sources final)%list
    /\ res_status (st_res s') = res_status (st_res s)
    /\ res_json (st_res s') = res_json (st_res s)
    /\ res_ended (st_res s') = true
    /\ Forall unenriched merged
    /\ length final = length merged
    /\ (forall j, (5 <= j)%nat -> final !! j = merged !! j)
    /\ (forall j o, merged !! j = Some o -> exists c, final !! j = Some c /\ enrich_step o c).
Proof.
  intros rps merged.
  destruct (scrape_loop_run w keywords location rps sources 0%nat [] s)
    as (jobs & s1 & Hloop & Hw & Hraw & _).
  destruct (scrape_loop_extractions w keywords location rps sources 0%nat [] s)
    as (s1' & Hloop').
  rewrite Hloop' in Hloop. injection Hloop as Hm Hs. subst s1'.
  fold merged in Hm, Hloop'. simpl app in Hm, Hloop'. subst jobs.
  destruct (res_write (Progress "Finding career pages..." 60) s1) as [r1 s2] eqn:Hw1.
  destruct (enrich_run w merged s2) as (final & s3 & Hen & Hres & Hlen & Hout & Hin).
  exists final. eexists.
  unfold pipeline. fold rps. unfold bind at 1. rewrite Hloop'.
  unfold bind at 1. rewrite Hw1.
  injection Hw1 as <- <-.
  unfold bind at 1. rewrite Hen.
  split; [reflexivity |].
  destruct Hw as (F & S & J & E).
  simpl. rewrite Hres. simpl. unfold stream_of.
  rewrite F, S, J, <- !app_assoc. auto 10.
Qed.

Lemma handler_run w req a k sources s :
  req_keywords req = Some (String a k) ->
  req_sources req = Some sources ->
  let rps := resultsPerSource (request_maxResults req) sources in
  let merged := concat (map (kept rps)
                  (extractions w (String a k) (req_location req) rps 0 sources s)) in
  exists final s',
    handler w req s = (Ret tt, s')
    /\ res_frames (st_res s') = (res_frames (st_res s) ++ stream_of sources final)%list
    /\ res_status (st_res s') = res_status (st_res s)
    /\ res_json (st_res s') = res_json (st_res s)
    /\ res_ended (st_res s') = true
    /\ Forall unenriched merged
    /\ length final = length merged
    /\ (forall j, (5 <= j)%nat -> final !! j = merged !! j)
    /\ (forall j o, merged !! j = Some o -> exists c, final !! j = Some c /\ enrich_step o c).
Proof.
  intros Hk Hs rps merged.
  destruct (pipeline_run w (String a k) (req_location req) (request_maxResults req) sources s)
    as (final & s' & Hp & H).
  exists final, s'. split; [| exact H].
  unfold handler, try_catch. rewrite Hk, Hs.
  unfold request_maxResults in Hp. rewrite Hp. reflexivity.
Qed.

(** With keywords and a list of sources the handler is the pipeline: the
    outer [catch] has nothing to catch. *)
Lemma handler_pipeline w req a k sources s :
  req_keywords req = Some (String a k) ->
  req_sources req = Some sources ->
  handler w req s
  = pipeline w (String a k) (req_location req) (request_maxResults req) sources s.
Proof.
  intros Hk Hs.
  destruct (pipeline_run w (String a k) (req_location req) (request_maxResults req) sources s)
    as (final & s' & Hp & _).
  rewrite Hp. unfold handler, try_catch. rewrite Hk, Hs.
  unfold request_maxResults in Hp. rewrite Hp. reflexivity.
Qed.

Lemma valid_request_parts req :
  valid_request req = true ->
  exists a k source rest,
    req_keywords req = Some (String a k)
    /\ req_sources req = Some (source :: rest)
    /\ forallb known_source (source :: rest) = true
    /\ 0 < request_maxResults req.
Proof.
  unfold valid_request, request_maxResults.
  destruct req as [[[| a k] |] loc [[| source rest] |] mr]; simpl; try discriminate.
  intros H. apply andb_true_iff in H as [H1 H2].
  exists a, k, source, rest. repeat split; auto.
  destruct mr as [m |]; simpl; [| lia].
  apply Z.ltb_lt. exact H2.
Qed.

Lemma merged_length w keywords location K sources :
  0 <= K ->
  forall k s,
    Z.of_nat (length (concat (map (kept (Num (inject_Z K)))
                (extractions w keywords location (Num (inject_Z K)) k sources s))))
    <= Z.of_nat (length sources) * K.
Proof.
  intros HK. induction sources as [| source rest IH]; intros k s.
  - simpl. lia.
  - cbn [extractions map concat]. rewrite length_app.
    pose proof (contribution_length w keywords location K k source s HK) as Hc.
    unfold contribution in Hc.
    specialize (IH (S k) (snd (scrape_iteration w keywords location
                                 (Num (inject_Z K)) k source [] s))).
    simpl length. lia.
Qed.

Lemma is_ceiling_positive m n k : 0 < m -> (0 < n)%nat -> is_ceiling m n k -> 0 < k.
Proof. intros Hm Hn [H _]. nia. Qed.

(** * The claims *)

(** ** C1: the size of the final list *)

(** C1 as stated fails.  With [maxResults = 1] and the two sources
    requested, each source may keep [ceil(1/2) = 1] job and nothing
    truncates the concatenation: the complete event carries 2 jobs. *)
Lemma complete_exceeds_maxResults :
  valid_request (Fixture.scrape ["linkedin"; "naukri"] (Some 1)) = true
  /\ request_maxResults (Fixture.scrape ["linkedin"; "naukri"] (Some 1)) = 1
  /\ map length (complete_events
       (frames_of Fixture.calm (Fixture.scrape ["linkedin"; "naukri"] (Some 1))))
     = [2%nat].
Proof. vm_compute. repeat split. Qed.

(** C1, amended.  For every valid request the complete event is unique
    and its job list has at most [sources.length * ceil(maxResults /
    sources.length)] entries, which is less than [maxResults +
    sources.length]; it has at most [maxResults] entries when
    [sources.length] divides [maxResults]. *)
Theorem complete_jobs_within_rounded_budget w req s :
  valid_request req = true ->
  st_res s = fresh_response ->
  exists jobs k,
    complete_events (res_frames (st_res (snd (handler w req s)))) = [jobs]
    /\ is_ceiling (request_maxResults req) (length (request_sources req)) k
    /\ Z.of_nat (length jobs) <= Z.of_nat (length (request_sources req)) * k
    /\ Z.of_nat (length jobs)
       < request_maxResults req + Z.of_nat (length (request_sources req))
    /\ ((Z.of_nat (length (request_sources req)) | request_maxResults req) ->
        Z.of_nat (length jobs) <= request_maxResults req).
Proof.
  intros Hvalid Hfresh.
  destruct (valid_request_parts req Hvalid) as (a & kw & source & rest & Hk & Hs & _ & Hm).
  destruct (handler_run w req a kw (source :: rest) s Hk Hs)
    as (final & s' & Hrun & Hframes & _ & _ & _ & _ & Hlen & _).
  destruct (resultsPerSource_ceiling (request_maxResults req) (source :: rest) ltac:(discriminate))
    as (k & Hrps & Hceil).
  pose proof (is_ceiling_positive (request_maxResults req) (length (source :: rest)) k
                Hm ltac:(simpl; lia) Hceil) as Hkpos.
  rewrite Hrps in Hlen.
  pose proof (merged_length w (String a kw) (req_location req) k (source :: rest)
                ltac:(lia) 0%nat s) as Hbound.
  rewrite <- Hlen in Hbound.
  unfold request_sources. rewrite Hs. cbn [default from_option id].
  exists final, k. rewrite Hrun. cbn [snd]. rewrite Hframes, Hfresh. cbn [res_frames app].
  split; [apply complete_events_stream |].
  split; [exact Hceil |].
  split; [exact Hbound |].
  apply is_ceiling_bounds in Hceil as [Hlo Hhi]; [| simpl; lia].
  split; [lia |].
  intros [q Hq].
  assert (0 < Z.of_nat (length (source :: rest))) as Hn by (simpl; lia).
  assert (q = k) as -> by nia.
  lia.
Qed.

Lemma complete_jobs_within_rounded_budget_witness :
  exists jobs k,
    complete_events (res_frames (st_res (snd
      (handler Fixture.calm (Fixture.scrape ["linkedin"; "naukri"] (Some 1)) initial_state))))
    = [jobs]
    /\ is_ceiling 1 2 k
    /\ Z.of_nat (length jobs) <= 2 * k
    /\ Z.of_nat (length jobs) < 1 + 2
    /\ ((2 | 1) -> Z.of_nat (length jobs) <= 1).
Proof.
  apply (complete_jobs_within_rounded_budget Fixture.calm
           (Fixture.scrape ["linkedin"; "naukri"] (Some 1)) initial_state);
    reflexivity.
Defined.

(** ** C2: the order of the frames *)

(** What holds of every request that reaches the stream: the frames
    written are progress frames followed by one complete frame, which is
    the last; the status is left alone and the response is ended. *)
Lemma stream_ends_with_the_complete_event w req a k sources s :
  req_keywords req = Some (String a k) ->
  req_sources req = Some sources ->
  exists progress_frames final s',
    handler w req s = (Ret tt, s')
    /\ res_frames (st_res s')
       = (res_frames (st_res s) ++ progress_frames ++ [Complete final])%list
    /\ Forall (fun f => exists message p, f = Progress message p) progress_frames
    /\ res_status (st_res s') = res_status (st_res s)
    /\ res_json (st_res s') = res_json (st_res s)
    /\ res_ended (st_res s') = true.
Proof.
  intros Hk Hs.
  destruct (handler_run w req a k sources s Hk Hs)
    as (final & s' & Hrun & Hframes & Hstatus & Hjson & Hended & _).
  destruct (stream_shape sources final) as (ps & Hshape & Hps).
  exists ps, final, s'. rewrite Hframes, Hshape. auto 10.
Qed.

(** The fixed frames never break the order: the values regress only if
    the announcements do, that is, only if some Naukri entry comes before
    a LinkedIn entry. *)
Lemma nondecreasing_then_fixed l :
  nondecreasing l = true -> Forall (fun p => p <= 60) l ->
  nondecreasing (l ++ [60; 100]) = true.
Proof.
  induction l as [| a [| b l] IH]; intros Hl Hb.
  - reflexivity.
  - apply Forall_cons in Hb as [Ha _]. simpl.
    apply andb_true_iff. split; [by apply Z.leb_le | reflexivity].
  - apply Forall_cons in Hb as [_ Hb].
    change (nondecreasing (a :: b :: l)) with ((a <=? b) && nondecreasing (b :: l)) in Hl.
    apply andb_true_iff in Hl as [Hab Hl].
    change ((a <=? b) && nondecreasing ((b :: l) ++ [60; 100]) = true).
    rewrite Hab. simpl andb. by apply IH.
Qed.

Lemma progress_nondecreasing_when_announcements_are sources final :
  nondecreasing (progress_values (omap announcement sources)) = true ->
  nondecreasing (progress_values (stream_of sources final)) = true.
Proof.
  intros H. rewrite progress_values_stream. apply nondecreasing_then_fixed; [exact H |].
  apply Forall_forall. intros p Hp. unfold progress_values in Hp.
  apply list_elem_of_omap in Hp as (f & Hf & Hpf).
  apply list_elem_of_omap in Hf as (source & _ & Hs).
  apply announcement_progress in Hs as (message & q & -> & Hq).
  injection Hpf as <-. lia.
Qed.

(** C2 fails on the code when the caller lists Naukri before LinkedIn:
    whatever the pages answer, the progress values written are
    40, 20, 60, 100, and 40 is followed by 20. *)
Theorem progress_regresses_when_naukri_comes_first w location maxResults :
  let req := {| req_keywords := Some "backend engineer"; req_location := location;
                req_sources := Some ["naukri"; "linkedin"];
                req_maxResults := maxResults |} in
  progress_values (frames_of w req) = [40; 20; 60; 100]
  /\ nondecreasing (progress_values (frames_of w req)) = false.
Proof.
  intros req.
  destruct (handler_run w req "b" "ackend engineer" ["naukri"; "linkedin"] initial_state
              eq_refl eq_refl)
    as (final & s' & Hrun & Hframes & _).
  unfold frames_of. rewrite Hrun. cbn [snd]. rewrite Hframes.
  cbn [initial_state st_res fresh_response res_frames app].
  rewrite progress_values_stream. split; reflexivity.
Qed.

(** ** C3: a request without keywords *)

(** C3.  When [keywords] is missing the handler answers at once with
    status 400 and the body [{error: "Keywords are required"}], whose
    JSON text is given byte by byte; nothing is written on the stream and
    the browser is not touched. *)
Theorem missing_keywords_rejected w req s :
  req_keywords req = None ->
  st_res s = fresh_response ->
  exists s',
    handler w req s = (Ret tt, s')
    /\ res_status (st_res s') = 400
    /\ res_json (st_res s')
       = Some {| body_error := "Keywords are required"; body_details := None |}
    /\ error_json "Keywords are required"
       = String.string_of_list_ascii (map ascii_of_nat
           [123; 34; 101; 114; 114; 111; 114; 34; 58; 34; 75; 101; 121; 119; 111;
            114; 100; 115; 32; 97; 114; 101; 32; 114; 101; 113; 117; 105; 114;
            101; 100; 34; 125]%nat)
    /\ res_frames (st_res s') = []
    /\ res_ended (st_res s') = true
    /\ st_calls s' = st_calls s
    /\ st_browser s' = st_browser s.
Proof.
  intros Hk Hfresh. unfold handler. rewrite Hk.
  eexists. split; [reflexivity |]. simpl. rewrite Hfresh. simpl.
  repeat split.
Qed.

Lemma missing_keywords_rejected_witness :
  exists s',
    handler Fixture.calm Fixture.no_keywords initial_state = (Ret tt, s')
    /\ res_status (st_res s') = 400
    /\ res_json (st_res s')
       = Some {| body_error := "Keywords are required"; body_details := None |}
    /\ error_json "Keywords are required"
       = String.string_of_list_ascii (map ascii_of_nat
           [123; 34; 101; 114; 114; 111; 114; 34; 58; 34; 75; 101; 121; 119; 111;
            114; 100; 115; 32; 97; 114; 101; 32; 114; 101; 113; 117; 105; 114;
            101; 100; 34; 125]%nat)
    /\ res_frames (st_res s') = []
    /\ res_ended (st_res s') = true
    /\ st_calls s' = st_calls initial_state
    /\ st_browser s' = st_browser initial_state.
Proof.
  apply (missing_keywords_rejected Fixture.calm Fixture.no_keywords initial_state);
    reflexivity.
Defined.

(** ** C10: an empty list of sources *)

(** C10.  With keywords present and [sources = []] nothing is rejected,
    although such a request is not a valid one: no page is opened, and
    the stream is the two fixed progress frames followed by a complete
    event with no jobs. *)
Theorem empty_sources_still_stream w a k location maxResults s :
  let req := {| req_keywords := Some (String a k); req_location := location;
                req_sources := Some []; req_maxResults := maxResults |} in
  valid_request req = false
  /\ exists s',
       handler w req s = (Ret tt, s')
       /\ res_frames (st_res s')
          = (res_frames (st_res s)
             ++ [Progress "Finding career pages..." 60; Progress "Complete!" 100;
                 Complete []])%list
       /\ res_status (st_res s') = res_status (st_res s)
       /\ res_json (st_res s') = res_json (st_res s)
       /\ res_ended (st_res s') = true
       /\ st_calls s' = st_calls s.
Proof.
  intros req. split; [reflexivity |].
  eexists. split; [reflexivity |]. simpl.
  rewrite <- !app_assoc. repeat split.
Qed.

(** ** C4: a source whose extractor throws *)

Lemma scrape_iteration_caught w keywords location rps k source allJobs s e s1 :
  scrape_source w keywords location k source s = (Throw e, s1) ->
  scrape_iteration w keywords location rps k source allJobs s
  = (Ret allJobs, snd (console_error ("Error scraping " +:+ source +:+ ":") s1)).
Proof.
  intros H. unfold scrape_iteration, try_catch, bind. rewrite H. reflexivity.
Qed.

(** C4.  For a request that reaches the pipeline: an iteration whose
    extractor throws returns normally with [allJobs] as it was, and the
    loop goes on with the remaining sources; the merged list is the
    concatenation, in order, of what each source kept, a thrown outcome
    keeping nothing; the handler returns, the response keeps its status
    and has no JSON body added, and the stream is progress frames
    followed by one complete event whose jobs are the merged ones after
    at most one enrichment round each. *)
Theorem failed_extraction_is_skipped w req a k sources s :
  req_keywords req = Some (String a k) ->
  req_sources req = Some sources ->
  let keywords := String a k in
  let location := req_location req in
  let rps := resultsPerSource (request_maxResults req) sources in
  let outcomes := extractions w keywords location rps 0 sources s in
  let merged := concat (map (kept rps) outcomes) in
  (forall i source rest allJobs st e st1,
      scrape_source w keywords location i source st = (Throw e, st1) ->
      exists st2,
        scrape_iteration w keywords location rps i source allJobs st = (Ret allJobs, st2)
        /\ scrape_loop w keywords location rps i (source :: rest) allJobs st
           = scrape_loop w keywords location rps (S i) rest allJobs st2)
  /\ length outcomes = length sources
  /\ (forall i e, outcomes !! i = Some (Throw e) -> map (kept rps) outcomes !! i = Some [])
  /\ (forall i sourceJobs, outcomes !! i = Some (Ret sourceJobs) ->
        map (kept rps) outcomes !! i = Some (slice0 sourceJobs rps))
  /\ (exists s1, scrape_loop w keywords location rps 0 sources [] s = (Ret merged, s1))
  /\ exists progress_frames final s',
       handler w req s = (Ret tt, s')
       /\ res_frames (st_res s')
          = (res_frames (st_res s) ++ progress_frames ++ [Complete final])%list
       /\ Forall (fun f => exists message p, f = Progress message p) progress_frames
       /\ res_status (st_res s') = res_status (st_res s)
       /\ res_json (st_res s') = res_json (st_res s)
       /\ res_ended (st_res s') = true
       /\ length final = length merged
       /\ (forall j o, merged !! j = Some o ->
             exists c, final !! j = Some c /\ enrich_step o c).
Proof.
  intros Hk Hs keywords location rps outcomes merged.
  split; [| split; [| split; [| split; [| split]]]].
  - intros i source rest allJobs st e st1 H.
    eexists. split; [by apply scrape_iteration_caught with (e := e) |].
    simpl. unfold bind.
    rewrite (scrape_iteration_caught _ _ _ _ _ _ _ _ e st1 H). reflexivity.
  - apply length_extractions.
  - intros i e H. rewrite list_lookup_fmap, H. reflexivity.
  - intros i sourceJobs H. rewrite list_lookup_fmap, H. reflexivity.
  - destruct (scrape_loop_extractions w keywords location rps sources 0%nat [] s)
      as (s1 & H). exists s1. exact H.
  - destruct (handler_run w req a k sources s Hk Hs)
      as (final & s' & Hrun & Hframes & Hstatus & Hjson & Hended & _ & Hlen & _ & Hin).
    destruct (stream_shape sources final) as (ps & Hshape & Hps).
    exists ps, final, s'. rewrite Hframes, Hshape. auto 12.
Qed.

(** The scenario of the specification: Naukri's results never show up,
    LinkedIn answers with seven cards, ten results are asked for. *)
Lemma failed_extraction_is_skipped_witness :
  let req := Fixture.scrape ["linkedin"; "naukri"] (Some 10) in
  let rps := resultsPerSource 10 ["linkedin"; "naukri"] in
  let outcomes := extractions Fixture.naukri_down "backend engineer" None rps 0
                    ["linkedin"; "naukri"] initial_state in
  outcomes !! 1%nat = Some (Throw SelectorTimeout)
  /\ map (kept rps) outcomes !! 1%nat = Some []
  /\ exists progress_frames final s',
       handler Fixture.naukri_down req initial_state = (Ret tt, s')
       /\ res_frames (st_res s') = (progress_frames ++ [Complete final])%list
       /\ Forall (fun f => exists message p, f = Progress message p) progress_frames
       /\ res_json (st_res s') = None
       /\ length final = 5%nat.
Proof.
  intros req rps outcomes.
  destruct (failed_extraction_is_skipped Fixture.naukri_down req "b" "ackend engineer"
              ["linkedin"; "naukri"] initial_state eq_refl eq_refl)
    as (_ & _ & Hthrow & _ & _ & ps & final & s' & Hrun & Hframes & Hps & _ & Hjson & _
        & Hlen & _).
  split; [reflexivity |].
  split; [apply (Hthrow 1%nat SelectorTimeout); reflexivity |].
  exists ps, final, s'.
  split; [exact Hrun |]. split; [exact Hframes |]. split; [exact Hps |].
  split; [exact Hjson |].
  rewrite Hlen. reflexivity.
Defined.

(** ** C5: enrichment is confined to a prefix and to two properties *)

(** C5.  The enrichment loop, on any list, returns a list of the same
    length whose jobs from index 5 on are the ones it was given, and
    whose other jobs agree with the given ones on every property but
    [careerPageUrl] and [hrEmail].  In a run of the handler the list given
    is the merged one, whose jobs carry neither property, so the jobs of
    the complete event from index 5 on carry neither. *)
Theorem enrichment_is_confined w req a k sources s :
  req_keywords req = Some (String a k) ->
  req_sources req = Some sources ->
  (forall (allJobs : list JobRecord) st,
      exists enriched st',
        enrich w allJobs st = (Ret enriched, st')
        /\ length enriched = length allJobs
        /\ (forall j, (5 <= j)%nat -> enriched !! j = allJobs !! j)
        /\ (forall j o c key, allJobs !! j = Some o -> enriched !! j = Some c ->
              enrichment_key key = false -> c !! key = o !! key))
  /\ exists merged s1 final s',
       scrape_loop w (String a k) (req_location req)
         (resultsPerSource (request_maxResults req) sources) 0 sources [] s
       = (Ret merged, s1)
       /\ handler w req s = (Ret tt, s')
       /\ res_frames (st_res s') = (res_frames (st_res s) ++ stream_of sources final)%list
       /\ length final = length merged
       /\ (forall j, (5 <= j)%nat -> final !! j = merged !! j)
       /\ (forall j (job : JobRecord), (5 <= j)%nat -> final !! j = Some job ->
             job !! "careerPageUrl" = None /\ job !! "hrEmail" = None)
       /\ (forall j o c key, merged !! j = Some o -> final !! j = Some c ->
             enrichment_key key = false -> c !! key = o !! key).
Proof.
  intros Hk Hs. split.
  - intros allJobs st.
    destruct (enrich_run w allJobs st) as (enriched & st' & Hen & _ & Hlen & Hout & Hin).
    exists enriched, st'. split; [exact Hen |]. split; [exact Hlen |].
    split; [exact Hout |].
    intros j o c key Ho Hc Hkey. destruct (Hin j o Ho) as (c' & Hc' & Hstep).
    assert (c' = c) as -> by congruence.
    eapply enrich_step_frame; eassumption.
  - destruct (handler_run w req a k sources s Hk Hs)
      as (final & s' & Hrun & Hframes & _ & _ & _ & Hraw & Hlen & Hout & Hin).
    destruct (scrape_loop_extractions w (String a k) (req_location req)
                (resultsPerSource (request_maxResults req) sources) sources 0%nat [] s)
      as (s1 & Hloop).
    eexists _, s1, final, s'.
    split; [exact Hloop |]. split; [exact Hrun |]. split; [exact Hframes |].
    split; [exact Hlen |]. split; [exact Hout |]. split.
    + intros j job Hj Hjob. rewrite Hout in Hjob by exact Hj.
      rewrite Forall_lookup in Hraw. exact (Hraw j job Hjob).
    + intros j o c key Ho Hc Hkey. destruct (Hin j o Ho) as (c' & Hc' & Hstep).
      assert (c' = c) as -> by congruence.
      eapply enrich_step_frame; eassumption.
Qed.

(** Seven LinkedIn jobs are merged; the sixth and the seventh stay bare,
    while the first gets both properties. *)
Lemma enrichment_is_confined_witness :
  let req := Fixture.scrape ["linkedin"] (Some 10) in
  exists final s',
    handler Fixture.calm req initial_state = (Ret tt, s')
    /\ res_frames (st_res s') = stream_of ["linkedin"] final
    /\ length final = 7%nat
    /\ (forall j (job : JobRecord), (5 <= j)%nat -> final !! j = Some job ->
          job !! "careerPageUrl" = None /\ job !! "hrEmail" = None).
Proof.
  intros req.
  destruct (enrichment_is_confined Fixture.calm req "b" "ackend engineer" ["linkedin"]
              initial_state eq_refl eq_refl)
    as (_ & merged & s1 & final & s' & Hloop & Hrun & Hframes & Hlen & _ & Hbare & _).
  exists final, s'.
  split; [exact Hrun |]. split; [exact Hframes |]. split; [| exact Hbare].
  rewrite Hlen. injection Hloop as <- _. reflexivity.
Defined.

(** ** C9: an address only next to a career page *)

(** C9.  Every job of the complete event that has an [hrEmail] property
    has a [careerPageUrl] property holding a non-empty string. *)
Theorem hrEmail_needs_careerPageUrl w req a k sources s :
  req_keywords req = Some (String a k) ->
  req_sources req = Some sources ->
  exists final s',
    handler w req s = (Ret tt, s')
    /\ res_frames (st_res s') = (res_frames (st_res s) ++ stream_of sources final)%list
    /\ forall (job : JobRecord) email,
         job ∈ final -> job !! "hrEmail" = Some email ->
         exists c u, job !! "careerPageUrl" = Some (VStr (String c u)).
Proof.
  intros Hk Hs.
  destruct (handler_run w req a k sources s Hk Hs)
    as (final & s' & Hrun & Hframes & _ & _ & _ & Hraw & Hlen & _ & Hin).
  exists final, s'. split; [exact Hrun |]. split; [exact Hframes |].
  intros job email Hjob Hemail.
  apply list_elem_of_lookup in Hjob as [j Hj].
  pose proof (lookup_lt_Some _ _ _ Hj) as Hlt. rewrite Hlen in Hlt.
  destruct (lookup_lt_is_Some_2 _ _ Hlt) as [o Ho].
  destruct (Hin j o Ho) as (c & Hc & Hstep).
  assert (c = job) as -> by congruence.
  rewrite Forall_lookup in Hraw. destruct (Hraw j o Ho) as [_ Hnone].
  eapply enrich_step_email; eassumption.
Qed.

Lemma hrEmail_needs_careerPageUrl_witness :
  let req := Fixture.scrape ["linkedin"; "naukri"] None in
  exists final s',
    handler Fixture.calm req initial_state = (Ret tt, s')
    /\ res_frames (st_res s') = stream_of ["linkedin"; "naukri"] final
    /\ forall (job : JobRecord) email,
         job ∈ final -> job !! "hrEmail" = Some email ->
         exists c u, job !! "careerPageUrl" = Some (VStr (String c u)).
Proof.
  intros req.
  exact (hrEmail_needs_careerPageUrl Fixture.calm req "b" "ackend engineer"
           ["linkedin"; "naukri"] initial_state eq_refl eq_refl).
Defined.

(** ** C6: the budget of a source *)

Lemma kept_length K o : 0 <= K -> Z.of_nat (length (kept (Num (inject_Z K)) o)) <= K.
Proof.
  intros HK. destruct o as [jobs | e]; simpl.
  - rewrite slice0_length by exact HK. lia.
  - lia.
Qed.

(** C6 as stated fails for a [maxResults] beyond [2^53].  The quotient
    of 13510798882111492 by three sources is 4503599627370497.33..; doubles
    of that size are whole numbers, the quotient is rounded down to
    4503599627370497, [Math.ceil] leaves it there, and the budget is one
    less than the ceiling 4503599627370498. *)
Lemma budget_misses_the_ceiling_beyond_2_53 :
  let req := Fixture.scrape ["linkedin"; "naukri"; "linkedin"] (Some 13510798882111492) in
  valid_request req = true
  /\ Binary64.agrees 13510798882111492 3 = true
  /\ resultsPerSource64 (request_maxResults req) (request_sources req)
     = Num (inject_Z 4503599627370497)
  /\ is_ceiling (request_maxResults req) (length (request_sources req)) 4503599627370498
  /\ ~ is_ceiling (request_maxResults req) (length (request_sources req)) 4503599627370497.
Proof.
  cbv zeta. split; [reflexivity |]. split; [by vm_compute |]. split; [by vm_compute |].
  change (request_maxResults _) with 13510798882111492.
  change (length _) with 3%nat.
  split.
  - apply is_ceiling_bounds; lia.
  - intros H. apply is_ceiling_bounds in H; lia.
Qed.

(** C6, amended.  For a valid request with [maxResults] below [2^53]
    ([maxResults] is 20 when the body has none), the budget
    [Math.ceil(maxResults / sources.length)], a function of [maxResults]
    and [sources] alone, is the ceiling of their quotient.  The handler
    gives that budget to every listed source: each source contributes the
    first [budget] jobs its extractor returned, or nothing when it threw, so
    at most [budget] jobs; and the complete event of the handler carries
    the concatenation of these contributions, one per listed source in the
    order of the request, each job as it was or with its enrichment. *)
Theorem budget_is_the_ceiling_for_each_source w req a k sources s :
  valid_request req = true ->
  req_keywords req = Some (String a k) ->
  req_sources req = Some sources ->
  request_maxResults req < 2 ^ 53 ->
  let keywords := String a k in
  let location := req_location req in
  let maxResults := request_maxResults req in
  (req_maxResults req = None -> maxResults = 20)
  /\ exists budget,
       resultsPerSource64 maxResults sources = Num (inject_Z budget)
       /\ is_ceiling maxResults (length sources) budget
       /\ let outcomes :=
            extractions w keywords location (Num (inject_Z budget)) 0 sources s in
          let contributions := map (kept (Num (inject_Z budget))) outcomes in
          length contributions = length sources
          /\ Forall (fun added => Z.of_nat (length added) <= budget) contributions
          /\ exists final s',
               handler w req s = (Ret tt, s')
               /\ res_frames (st_res s')
                  = (res_frames (st_res s) ++ stream_of sources final)%list
               /\ length final = length (concat contributions)
               /\ (forall j o, concat contributions !! j = Some o ->
                     exists c, final !! j = Some c /\ enrich_step o c).
Proof.
  intros Hvalid Hk Hs Hsmall keywords location maxResults.
  destruct (valid_request_parts req Hvalid) as (a' & k' & source & rest & _ & Hs' & _ & Hm).
  assert (sources = source :: rest) as Hsrc by congruence.
  split.
  - unfold maxResults, request_maxResults. intros ->. reflexivity.
  - destruct (resultsPerSource_ceiling maxResults sources ltac:(rewrite Hsrc; discriminate))
      as (budget & Hrps & Hceil).
    assert (0 < budget) as Hpos.
    { apply (is_ceiling_positive maxResults (length sources) budget Hm); [| exact Hceil].
      rewrite Hsrc. simpl. lia. }
    exists budget.
    split; [rewrite resultsPerSource64_exact by (unfold maxResults; lia); exact Hrps |].
    split; [exact Hceil |].
    cbv zeta. split; [| split].
    + rewrite length_map. apply length_extractions.
    + apply Forall_forall. intros added Hadded.
      apply list_elem_of_fmap in Hadded as (o & -> & _).
      apply kept_length. lia.
    + destruct (handler_run w req a k sources s Hk Hs)
        as (final & s' & Hrun & Hframes & _ & _ & _ & _ & Hlen & _ & Hstep).
      fold maxResults in Hlen, Hstep. rewrite Hrps in Hlen, Hstep.
      exists final, s'. auto.
Qed.

(** Seven results over two sources: the budget is 4; LinkedIn has seven
    jobs and contributes four, Naukri has two and contributes both, and
    the complete event carries the six. *)
Lemma budget_is_the_ceiling_for_each_source_witness :
  let req := Fixture.scrape ["linkedin"; "naukri"] (Some 7) in
  exists budget final s',
    resultsPerSource64 7 ["linkedin"; "naukri"] = Num (inject_Z budget)
    /\ budget = 4
    /\ map length (map (kept (Num (inject_Z budget)))
                     (extractions Fixture.calm "backend engineer" None
                        (Num (inject_Z budget)) 0 ["linkedin"; "naukri"] initial_state))
       = [4%nat; 2%nat]
    /\ handler Fixture.calm req initial_state = (Ret tt, s')
    /\ complete_events (res_frames (st_res s')) = [final]
    /\ length final = 6%nat.
Proof.
  intros req.
  destruct (budget_is_the_ceiling_for_each_source Fixture.calm req "b" "ackend engineer"
              ["linkedin"; "naukri"] initial_state eq_refl eq_refl eq_refl
              ltac:(by vm_compute))
    as (_ & budget & Hrps & _ & _ & _ & final & s' & Hrun & Hframes & Hlen & _).
  injection Hrps as Hb. symmetry in Hb.
  exists budget, final, s'. split; [by rewrite Hb |]. split; [exact Hb |].
  rewrite Hb in Hlen |- *. split; [reflexivity |]. split; [exact Hrun |].
  split; [rewrite Hframes; reflexivity | exact Hlen].
Defined.

(** ** C7: what the two lookups do when something fails *)

(** C7 as stated fails.  With a browser at hand that refuses to open a
    page, both lookups throw: [browser.newPage()] is called before the
    [try] block is entered. *)
Lemma lookups_throw_when_no_page_opens :
  fst (findCareerPage Fixture.no_page "Acme" Fixture.warm) = Throw NewPageError
  /\ fst (findHREmail Fixture.no_page (VStr "https://acme.example/careers") Fixture.warm)
     = Throw NewPageError.
Proof. split; reflexivity. Qed.

(** When a lookup throws: exactly when the page does not open or does
    not close. *)
Lemma findCareerPage_throws p companyName s :
  (exists e, fst (findCareerPage p companyName s) = Throw e)
  <-> page_opens p s && close_ok p = false.
Proof.
  run_session p s; (split; [intros [e H] | intros H]);
    first [discriminate H | reflexivity | eauto].
Qed.

Lemma findHREmail_throws p a u s :
  (exists e, fst (findHREmail p (VStr (String a u)) s) = Throw e)
  <-> page_opens p s && close_ok p = false.
Proof.
  run_session p s; (split; [intros [e H] | intros H]);
    first [discriminate H | reflexivity | eauto].
Qed.

(** C7, amended.  Once the page is open (a browser is cached or
    launches, and [newPage] succeeds) and provided [page.close()]
    succeeds, neither lookup throws: a failure while setting the user
    agent, navigating or evaluating, and a search without a first result,
    all give [null].  [findHREmail] on [null] or on the empty string
    returns [null] without touching anything. *)
Theorem lookups_give_null_once_the_page_is_open pc pe companyName a u s st :
  page_opens pc s = true -> close_ok pc = true ->
  page_opens pe st = true -> close_ok pe = true ->
  (exists v, fst (findCareerPage pc companyName s) = Ret v
             /\ (setUserAgent_ok pc = false \/ goto_ok pc = false
                 \/ evaluate_result pc = None \/ evaluate_result pc = Some None ->
                 v = VNull))
  /\ (exists v, fst (findHREmail pe (VStr (String a u)) st) = Ret v
                /\ (goto_ok pe = false \/ evaluate_result pe = None -> v = VNull))
  /\ (forall (p : session string) st',
        findHREmail p VNull st' = (Ret VNull, st')
        /\ findHREmail p (VStr EmptyString) st' = (Ret VNull, st')).
Proof.
  intros Hopen Hclose Hopen' Hclose'. split; [| split].
  - revert Hopen Hclose.
    run_session pc s; intros Hopen Hclose; try discriminate;
      eexists; (split; [reflexivity |]);
      intros [H | [H | [H | H]]];
      first [discriminate H | reflexivity | injection H as ->; reflexivity].
  - revert Hopen' Hclose'.
    run_session pe st; intros Ho Hc; try discriminate;
      eexists; (split; [reflexivity |]);
      intros [H | H]; first [discriminate H | reflexivity].
  - intros p st'. split; reflexivity.
Qed.

(** The search page times out in a warm browser: [null], no exception. *)
Lemma lookups_give_null_once_the_page_is_open_witness :
  let slow : session (option string) :=
    {| launch_ok := true; newPage_ok := true; setUserAgent_ok := true;
       goto_ok := false; waitForSelector_ok := true;
       evaluate_result := Some (Some "https://acme.example/careers");
       close_ok := true |} in
  fst (findCareerPage slow "Acme" Fixture.warm) = Ret VNull
  /\ fst (findHREmail Fixture.timing_out (VStr "https://acme.example/careers") Fixture.warm)
     = Ret VNull.
Proof.
  intros slow.
  destruct (lookups_give_null_once_the_page_is_open slow Fixture.timing_out "Acme"
              "h" "ttps://acme.example/careers" Fixture.warm Fixture.warm
              eq_refl eq_refl eq_refl eq_refl)
    as ((v & Hv & Hnull) & (v' & Hv' & Hnull') & _).
  split.
  - rewrite Hv. f_equal. apply Hnull. right. left. reflexivity.
  - rewrite Hv'. f_equal. apply Hnull'. right. reflexivity.
Defined.

(** ** C8: which address [findHREmail] returns *)

Lemma N_of_ascii_inj a b : N_of_ascii a = N_of_ascii b -> a = b.
Proof.
  intros H. rewrite <- (ascii_N_embedding a), <- (ascii_N_embedding b). by rewrite H.
Qed.

Lemma is_lower_spec c : Regex.is_lower c = true <-> (97 <= N_of_ascii c <= 122)%N.
Proof.
  unfold Regex.is_lower, Regex.between.
  rewrite andb_true_iff, !N.leb_le. reflexivity.
Qed.

Lemma N_of_upper c :
  N_of_ascii (Regex.upper c)
  = if Regex.is_lower c then (N_of_ascii c - 32)%N else N_of_ascii c.
Proof.
  unfold Regex.upper. destruct (Regex.is_lower c) eqn:L; [| reflexivity].
  apply is_lower_spec in L. apply N_ascii_embedding. lia.
Qed.

(** Folding both bytes to capitals and comparing decides [same_letter]. *)
Lemma upper_same_letter a b :
  Regex.upper a = Regex.upper b <-> same_letter a b.
Proof.
  split.
  - intros H. apply (f_equal N_of_ascii) in H. rewrite !N_of_upper in H.
    destruct (Regex.is_lower a) eqn:La, (Regex.is_lower b) eqn:Lb.
    + apply is_lower_spec in La, Lb. left. apply N_of_ascii_inj. lia.
    + apply is_lower_spec in La. right. exists (N_of_ascii b). lia.
    + apply is_lower_spec in Lb. right. exists (N_of_ascii a). lia.
    + left. by apply N_of_ascii_inj.
  - intros [-> | (capital & Hc & [[Ha Hb] | [Ha Hb]])]; [reflexivity | |];
      apply N_of_ascii_inj; rewrite !N_of_upper.
    + assert (Regex.is_lower a = false) as ->.
      { apply not_true_iff_false. rewrite is_lower_spec. lia. }
      assert (Regex.is_lower b = true) as -> by (apply is_lower_spec; lia).
      lia.
    + assert (Regex.is_lower b = false) as ->.
      { apply not_true_iff_false. rewrite is_lower_spec. lia. }
      assert (Regex.is_lower a = true) as -> by (apply is_lower_spec; lia).
      lia.
Qed.

Lemma prefix_ci_spec p : forall s,
  Regex.prefix_ci p s = true
  <-> exists inside after, s = (inside ++ after)%list /\ Forall2 same_letter inside p.
Proof.
  induction p as [| a p IH]; intros s; simpl.
  - split; [| reflexivity]. intros _. exists [], s. split; [reflexivity | constructor].
  - destruct s as [| b s].
    + split; [discriminate |]. intros (inside & after & Hs & Hm).
      destruct inside; [inversion Hm | discriminate Hs].
    + rewrite andb_true_iff, Ascii.eqb_eq, IH. split.
      * intros (Hab & inside & after & -> & Hm).
        exists (b :: inside), after. split; [reflexivity |].
        constructor; [| exact Hm]. by apply upper_same_letter.
      * intros (inside & after & Hs & Hm).
        destruct inside as [| b' inside]; [inversion Hm |].
        injection Hs as <- ->. apply Forall2_cons_1 in Hm as [Hb Hm].
        split; [symmetry; by apply upper_same_letter | eauto].
Qed.

Lemma contains_ci_spec p : forall s,
  Regex.contains_ci p s = true
  <-> exists before inside after, s = (before ++ inside ++ after)%list
                                  /\ Forall2 same_letter inside p.
Proof.
  induction s as [| c s IH].
  - simpl. rewrite orb_false_r, prefix_ci_spec. split.
    + intros (inside & after & Hs & Hm). exists [], inside, after. auto.
    + intros (before & inside & after & Hs & Hm).
      destruct before; [| discriminate Hs]. simpl in Hs. eauto.
  - cbn [Regex.contains_ci]. rewrite orb_true_iff, prefix_ci_spec, IH. split.
    + intros [(inside & after & Hs & Hm) | (before & inside & after & -> & Hm)].
      * exists [], inside, after. auto.
      * exists (c :: before), inside, after. auto.
    + intros (before & inside & after & Hs & Hm).
      destruct before as [| c' before].
      * left. simpl in Hs. eauto.
      * injection Hs as <- ->. right. eauto.
Qed.

(** The test of the source decides the property of the specification. *)
Lemma role_test_spec email : Regex.role_test email = true <-> mentions_role email.
Proof.
  unfold Regex.role_test, mentions_role. rewrite existsb_exists. split.
  - intros (word & Hin & Hc). apply contains_ci_spec in Hc as (b & i & a & Hs & Hm).
    exists word, b, i, a. rewrite list_elem_of_In. auto.
  - intros (word & b & i & a & Hin & Hs & Hm). exists word.
    rewrite <- list_elem_of_In. split; [exact Hin |].
    apply contains_ci_spec. eauto.
Qed.

Lemma role_test_not email : Regex.role_test email = false <-> ~ mentions_role email.
Proof.
  rewrite <- role_test_spec. destruct (Regex.role_test email); split; congruence.
Qed.

Lemma role_test_nonempty email : Regex.role_test email = true -> email <> EmptyString.
Proof. intros H ->. discriminate H. Qed.

Lemma find_first {A} (f : A -> bool) (l : list A) x :
  List.find f l = Some x ->
  exists before after, l = (before ++ x :: after)%list
                       /\ Forall (fun y => f y = false) before /\ f x = true.
Proof.
  induction l as [| y l IH]; simpl; [discriminate |].
  destruct (f y) eqn:Hy.
  - intros [= <-]. exists [], l. auto.
  - intros H. destruct (IH H) as (before & after & -> & Hb & Hx).
    exists (y :: before), after. auto.
Qed.

Lemma find_nowhere {A} (f : A -> bool) (l : list A) :
  List.find f l = None -> Forall (fun y => f y = false) l.
Proof.
  induction l as [| y l IH]; simpl; [constructor |].
  destruct (f y) eqn:Hy; [discriminate |]. auto.
Qed.

(** The callback of [page.evaluate], in the words of the specification. *)
Lemma select_email_spec text :
  match Regex.match_emails text with
  | None => select_email text = VNull
  | Some emails =>
      exists first rest,
        emails = first :: rest
        /\ ((exists before e after,
               emails = (before ++ e :: after)%list
               /\ Forall (fun x => ~ mentions_role x) before
               /\ mentions_role e
               /\ select_email text = VStr e)
            \/ (Forall (fun x => ~ mentions_role x) emails
                /\ select_email text = VStr first))
  end.
Proof.
  unfold select_email.
  destruct (Regex.match_emails text) as [[| first rest] |] eqn:E; [| | reflexivity].
  - unfold Regex.match_emails in E.
    destruct (Regex.scan 0 None (String.list_ascii_of_string text)); discriminate E.
  - exists first, rest. split; [reflexivity |].
    destruct (List.find Regex.role_test (first :: rest)) as [e |] eqn:F.
    + left. destruct (find_first _ _ _ F) as (before & after & Hl & Hb & He).
      exists before, e, after. split; [exact Hl |]. split; [| split].
      * eapply Forall_impl; [exact Hb |]. intros x. apply role_test_not.
      * by apply role_test_spec.
      * unfold or_else. destruct e as [| c e]; [discriminate He | reflexivity].
    + right. split; [| reflexivity].
      eapply Forall_impl; [exact (find_nowhere _ _ F) |]. intros x. apply role_test_not.
Qed.

(** What [match] extracts are pieces of the text. *)
Lemma match_here_take prev s m : Regex.match_here prev s = Some m -> exists n, m = take n s.
Proof.
  unfold Regex.match_here.
  destruct (Regex.boundary prev (head s)); [| discriminate].
  destruct (Regex.run_length Regex.is_local s) as [| l']; [discriminate |].
  destruct (s !! S l') as [c |]; [| discriminate].
  destruct (Ascii.eqb c "@"); [| discriminate].
  destruct (Regex.match_domain (drop (S (S l')) s)) as [d |]; [| discriminate].
  intros [= <-]. eauto.
Qed.

Lemma scan_pieces s : forall skip prev m,
  m ∈ Regex.scan skip prev s -> exists before after, s = (before ++ m ++ after)%list.
Proof.
  induction s as [| c s IH]; intros skip prev m Hm; simpl in Hm.
  - by apply elem_of_nil in Hm.
  - assert (forall skip', m ∈ Regex.scan skip' (Some c) s ->
                     exists before after, c :: s = (before ++ m ++ after)%list) as Hrest.
    { intros skip' H. destruct (IH _ _ _ H) as (before & after & ->).
      exists (c :: before), after. reflexivity. }
    destruct skip as [| skip]; [| eauto].
    destruct (Regex.match_here prev (c :: s)) as [m0 |] eqn:E; [| eauto].
    apply elem_of_cons in Hm as [-> | Hm]; [| eauto].
    destruct (match_here_take _ _ _ E) as [n ->].
    exists [], (drop n (c :: s)). simpl app. by rewrite take_drop.
Qed.

Lemma match_emails_pieces text emails e :
  Regex.match_emails text = Some emails -> e ∈ emails ->
  exists before after,
    String.list_ascii_of_string text
    = (before ++ String.list_ascii_of_string e ++ after)%list.
Proof.
  unfold Regex.match_emails.
  destruct (Regex.scan 0 None (String.list_ascii_of_string text)) as [| m ms] eqn:E;
    [discriminate |].
  intros [= <-] He.
  apply list_elem_of_In, (in_map_iff _ (m :: ms)) in He as (m' & <- & Hm').
  rewrite String.list_ascii_of_string_of_list_ascii.
  eapply scan_pieces. rewrite E. apply list_elem_of_In. exact Hm'.
Qed.

Lemma findHREmail_answer p a u text s :
  page_opens p s = true -> goto_ok p = true ->
  evaluate_result p = Some text -> close_ok p = true ->
  fst (findHREmail p (VStr (String a u)) s) = Ret (select_email text).
Proof.
  run_session p s; intros Ho Hg He Hc; try discriminate;
    injection He as ->; reflexivity.
Qed.

(** C8.  When the career page opens, loads, is read and closes, the
    answer of [findHREmail] is decided by the addresses extracted from its
    text, which are pieces of that text: none extracted gives [null];
    otherwise the first one in which one of the words hr, careers,
    recruitment, jobs, talent occurs in any mix of letter cases, or the
    first one extracted when there is none such.  On [null] the function
    returns [null] and the state, calls to the browser included, is as it
    was. *)
Theorem findHREmail_prefers_role_addresses p a u text s :
  page_opens p s = true -> goto_ok p = true ->
  evaluate_result p = Some text -> close_ok p = true ->
  (exists v,
      fst (findHREmail p (VStr (String a u)) s) = Ret v
      /\ match Regex.match_emails text with
         | None => v = VNull
         | Some emails =>
             (forall e, e ∈ emails ->
                exists before after,
                  String.list_ascii_of_string text
                  = (before ++ String.list_ascii_of_string e ++ after)%list)
             /\ exists first rest,
                  emails = first :: rest
                  /\ ((exists before e after,
                         emails = (before ++ e :: after)%list
                         /\ Forall (fun x => ~ mentions_role x) before
                         /\ mentions_role e
                         /\ v = VStr e)
                      \/ (Forall (fun x => ~ mentions_role x) emails /\ v = VStr first))
         end)
  /\ (forall (p' : session string) s', findHREmail p' VNull s' = (Ret VNull, s')).
Proof.
  intros Ho Hg He Hc. split; [| reflexivity].
  exists (select_email text). split; [by apply findHREmail_answer |].
  pose proof (select_email_spec text) as H.
  destruct (Regex.match_emails text) as [emails |] eqn:E; [| exact H].
  split; [| exact H].
  intros e Hin. eapply match_emails_pieces; eassumption.
Qed.

(** A page that shows a general address before the one of the careers
    desk, which is written with a capital: the second address is the
    answer. *)
Lemma findHREmail_prefers_role_addresses_witness :
  Regex.match_emails Fixture.careers_text
  = Some ["info@acme.example"; "Careers@acme.example"]
  /\ ~ mentions_role "info@acme.example"
  /\ mentions_role "Careers@acme.example"
  /\ fst (findHREmail (Fixture.answering Fixture.careers_text)
            (VStr "https://acme.example/careers") Fixture.warm)
     = Ret (VStr "Careers@acme.example").
Proof.
  assert (Regex.match_emails Fixture.careers_text
          = Some ["info@acme.example"; "Careers@acme.example"]) as E by reflexivity.
  assert (~ mentions_role "info@acme.example") as Hinfo
    by (apply role_test_not; reflexivity).
  assert (mentions_role "Careers@acme.example") as Hcareers
    by (apply role_test_spec; reflexivity).
  split; [exact E |]. split; [exact Hinfo |]. split; [exact Hcareers |].
  destruct (findHREmail_prefers_role_addresses (Fixture.answering Fixture.careers_text)
              "h" "ttps://acme.example/careers" Fixture.careers_text Fixture.warm
              eq_refl eq_refl eq_refl eq_refl) as ((v & Hv & Hm) & _).
  rewrite E in Hm. destruct Hm as (_ & first & rest & _ & Hm).
  rewrite Hv. f_equal.
  destruct Hm as [(before & e & after & Hl & Hb & He & ->) | (Hnone & _)].
  - destruct before as [| b0 [| b1 before]].
    + injection Hl as <- _. contradiction.
    + injection Hl as _ <- _. reflexivity.
    + injection Hl as _ _ Hl. by destruct before.
  - apply Forall_cons in Hnone as [_ Hnone].
    apply Forall_cons in Hnone as [Hnone _]. contradiction.
Defined.

(** ** Calls to the engine: pages asked for, pages closed, launches *)

Lemma count_app f l1 l2 : count f (l1 ++ l2) = (count f l1 + count f l2)%nat.
Proof. unfold count. by rewrite List.filter_app, length_app. Qed.

Lemma footprint_refl s : footprint 0 s s.
Proof.
  exists []. rewrite app_nil_r. repeat split; auto.
Qed.

Lemma footprint_trans n1 n2 s1 s2 s3 :
  footprint n1 s1 s2 -> footprint n2 s2 s3 -> footprint (n1 + n2) s1 s3.
Proof.
  intros (a1 & C1 & N1 & P1 & B1) (a2 & C2 & N2 & P2 & B2).
  exists (a1 ++ a2)%list. rewrite !count_app.
  split; [by rewrite C2, C1, app_assoc |]. split; [lia |]. split; [lia |].
  intros Hb. destruct (B1 Hb) as [Hb2 L1]. destruct (B2 Hb2) as [Hb3 L2].
  split; [exact Hb3 | lia].
Qed.

Lemma footprint_weaken n m s s' : (n <= m)%nat -> footprint n s s' -> footprint m s s'.
Proof.
  intros Hnm (a & C & N & P & B). exists a. repeat split; auto; try lia; by apply B.
Qed.

Lemma footprint_same n s s' :
  st_calls s' = st_calls s -> st_browser s' = st_browser s -> footprint n s s'.
Proof.
  intros Hc Hb. apply (footprint_weaken 0); [lia |].
  exists []. rewrite app_nil_r, Hb. repeat split; auto.
Qed.

Ltac run_page p s :=
  destruct p as [[] [] [] [] [] [?|] []]; destruct s as [[] calls console res];
  cbv [scrapeLinkedIn scrapeNaukri findCareerPage findHREmail bind try_finally
       try_catch getBrowser newPage setUserAgent goto waitForSelector evaluate
       closePage engine_call console_error ret throw
       launch_ok newPage_ok setUserAgent_ok goto_ok waitForSelector_ok
       evaluate_result close_ok page_opens
       st_browser st_calls st_console st_res set_browser log_call snd fst orb andb].

Ltac footprint_by_cases :=
  unfold footprint;
  cbv [st_browser st_calls snd];
  eexists; (split; [rewrite <- ?app_assoc; reflexivity |]);
  cbv [count List.filter is_newPage is_closePage is_launch app length];
  repeat split; first [lia | discriminate | reflexivity | idtac].

Lemma footprint_scrapeLinkedIn p keywords location page s :
  footprint 1 s (snd (scrapeLinkedIn p keywords location page s)).
Proof. run_page p s; footprint_by_cases. Qed.

Lemma footprint_scrapeNaukri p keywords location page s :
  footprint 1 s (snd (scrapeNaukri p keywords location page s)).
Proof. run_page p s; footprint_by_cases. Qed.

Lemma footprint_findCareerPage p companyName s :
  footprint 1 s (snd (findCareerPage p companyName s)).
Proof. run_page p s; footprint_by_cases. Qed.

Lemma footprint_findHREmail p url s :
  footprint 1 s (snd (findHREmail p url s)).
Proof.
  destruct url as [| [| a u]];
    [apply footprint_same; reflexivity | apply footprint_same; reflexivity |].
  run_page p s; footprint_by_cases.
Qed.

Section Within.

Context {A B : Type}.

Lemma within_ret (a : A) : within 0 (ret a).
Proof. intros s. apply footprint_refl. Qed.

Lemma within_weaken n m (c : M A) : (n <= m)%nat -> within n c -> within m c.
Proof. intros Hnm H s. eapply footprint_weaken; [exact Hnm | apply H]. Qed.

Lemma within_bind n1 n2 (c : M A) (k : A -> M B) :
  within n1 c -> (forall a, within n2 (k a)) -> within (n1 + n2) (bind c k).
Proof.
  intros Hc Hk s. unfold bind. specialize (Hc s).
  destruct (c s) as [[a | e] s1]; simpl in *.
  - eapply footprint_trans; [exact Hc | apply Hk].
  - eapply footprint_weaken; [| exact Hc]. lia.
Qed.

Lemma within_try_catch n1 n2 (c : M A) (h : error -> M A) :
  within n1 c -> (forall e, within n2 (h e)) -> within (n1 + n2) (try_catch c h).
Proof.
  intros Hc Hh s. unfold try_catch. specialize (Hc s).
  destruct (c s) as [[a | e] s1]; simpl in *.
  - eapply footprint_weaken; [| exact Hc]. lia.
  - eapply footprint_trans; [exact Hc | apply Hh].
Qed.

End Within.

Lemma within_quiet {A} (c : M A) :
  (forall s, st_calls (snd (c s)) = st_calls s /\ st_browser (snd (c s)) = st_browser s) ->
  within 0 c.
Proof. intros H s. destruct (H s). by apply footprint_same. Qed.

Lemma within_console_error line : within 0 (console_error line).
Proof. apply within_quiet. intros s. split; reflexivity. Qed.

Lemma within_res_write f : within 0 (res_write f).
Proof. apply within_quiet. intros s. split; reflexivity. Qed.

Lemma within_res_end : within 0 res_end.
Proof. apply within_quiet. intros s. split; reflexivity. Qed.

Lemma within_res_status_json code b : within 0 (res_status_json code b).
Proof. apply within_quiet. intros s. split; reflexivity. Qed.

Lemma within_scrape_source w keywords location k source :
  within 1 (scrape_source w keywords location k source).
Proof.
  unfold scrape_source.
  destruct (String.eqb source "linkedin"); [| destruct (String.eqb source "naukri")].
  - apply (within_bind 0 1); [apply within_res_write |].
    intros _ s. apply footprint_scrapeLinkedIn.
  - apply (within_bind 0 1); [apply within_res_write |].
    intros _ s. apply footprint_scrapeNaukri.
  - apply (within_weaken 0); [lia | apply within_ret].
Qed.

Lemma within_scrape_iteration w keywords location rps k source allJobs :
  within 1 (scrape_iteration w keywords location rps k source allJobs).
Proof.
  unfold scrape_iteration. apply (within_try_catch 1 0).
  - apply (within_weaken (1 + 0)); [lia |].
    apply within_bind; [apply within_scrape_source | intros; apply within_ret].
  - intros e. apply (within_bind 0 0); [apply within_console_error |].
    intros; apply within_ret.
Qed.

Lemma within_scrape_loop w keywords location rps sources :
  forall k allJobs,
    within (length sources) (scrape_loop w keywords location rps k sources allJobs).
Proof.
  induction sources as [| source rest IH]; intros k allJobs.
  - apply within_ret.
  - simpl scrape_loop. change (length (source :: rest)) with (1 + length rest)%nat.
    apply within_bind; [apply within_scrape_iteration | intros; apply IH].
Qed.

Lemma within_enrich_iteration w i allJobs : within 2 (enrich_iteration w i allJobs).
Proof.
  unfold enrich_iteration. destruct (allJobs !! i) as [job |].
  - apply (within_try_catch 2 0).
    + apply (within_bind 1 1); [intros s; apply footprint_findCareerPage |].
      intros url. cbv zeta. destruct (truthy url).
      * apply (within_try_catch 1 0).
        -- apply (within_weaken (1 + 0)); [lia |].
           apply within_bind; [intros s; apply footprint_findHREmail |].
           intros; apply within_ret.
        -- intros e. apply (within_bind 0 0); [apply within_console_error |].
           intros; apply within_ret.
      * apply (within_weaken 0); [lia | apply within_ret].
    + intros e. apply (within_bind 0 0); [apply within_console_error |].
      intros; apply within_ret.
  - apply (within_weaken 0); [lia |].
    apply (within_bind 0 0); [apply within_console_error |]. intros; apply within_ret.
Qed.

Lemma within_enrich_loop w : forall fuel i allJobs,
  within (2 * fuel) (enrich_loop w fuel i allJobs).
Proof.
  induction fuel as [| fuel IH]; intros i allJobs.
  - apply within_ret.
  - simpl enrich_loop. destruct (i <? Nat.min (length allJobs) 5)%nat.
    + apply (within_weaken (2 + 2 * fuel)); [lia |].
      apply within_bind; [apply within_enrich_iteration | intros; apply IH].
    + apply (within_weaken 0); [lia | apply within_ret].
Qed.

Lemma within_pipeline w keywords location maxResults sources :
  within (length sources + 10) (pipeline w keywords location maxResults sources).
Proof.
  unfold pipeline. cbv zeta.
  apply within_bind; [apply within_scrape_loop |]. intros merged.
  apply (within_bind 0 10); [apply within_res_write |]. intros _.
  apply (within_bind 10 0); [apply (within_enrich_loop w 5) |]. intros final.
  apply (within_bind 0 0); [apply within_res_write |]. intros _.
  apply (within_bind 0 0); [apply within_res_write |]. intros _.
  apply within_res_end.
Qed.

Lemma within_handler w req :
  within (length (request_sources req) + 10) (handler w req).
Proof.
  unfold handler, request_sources.
  destruct (req_keywords req) as [[| a k] |];
    try (apply (within_weaken 0); [lia | apply within_res_status_json]).
  destruct (req_sources req) as [sources |]; cbn [default from_option id].
  - apply (within_weaken (length sources + 10 + 0)); [lia |].
    apply within_try_catch; [apply within_pipeline |].
    intros e. apply (within_bind 0 0); [apply within_console_error |].
    intros; apply within_res_status_json.
  - apply (within_try_catch 0 10); [intros s; apply footprint_refl |].
    intros e. apply (within_weaken 0); [lia |].
    apply (within_bind 0 0); [apply within_console_error |].
    intros; apply within_res_status_json.
Qed.

(** * Further properties *)

(** ** Pages and launches of one request *)

(** X1.  Whatever the request and whatever the pages answer, the handler only
    adds calls to the trace of the engine, asks for at most one page per
    listed source plus ten for the enrichment, and closes no more pages
    than it asked for. *)
Theorem handler_asks_for_few_pages w req s :
  exists added,
    st_calls (snd (handler w req s)) = (st_calls s ++ added)%list
    /\ (count is_newPage added <= length (request_sources req) + 10)%nat
    /\ (count is_closePage added <= count is_newPage added)%nat.
Proof.
  destruct (within_handler w req s) as (added & Hc & Hn & Hp & _).
  exists added. auto.
Qed.

(** X2.  With a browser cached by an earlier request, the handler never
    launches another one and leaves the cached one in place. *)
Theorem cached_browser_is_reused w req s :
  st_browser s = true ->
  st_browser (snd (handler w req s)) = true
  /\ exists added,
       st_calls (snd (handler w req s)) = (st_calls s ++ added)%list
       /\ count is_launch added = O.
Proof.
  intros Hb. destruct (within_handler w req s) as (added & Hc & _ & _ & H).
  destruct (H Hb) as [Hb' Hl]. split; [exact Hb' |]. exists added. auto.
Qed.

Lemma cached_browser_is_reused_witness :
  st_browser (snd (handler Fixture.calm (Fixture.scrape ["linkedin"; "naukri"] None)
                     Fixture.warm)) = true
  /\ exists added,
       st_calls (snd (handler Fixture.calm (Fixture.scrape ["linkedin"; "naukri"] None)
                        Fixture.warm))
       = (st_calls Fixture.warm ++ added)%list
       /\ count is_launch added = O.
Proof.
  apply (cached_browser_is_reused Fixture.calm
           (Fixture.scrape ["linkedin"; "naukri"] None) Fixture.warm).
  reflexivity.
Defined.

(** X3.  Each of the four page functions closes the page it opened, whatever
    happens in between and whether it returns or throws: when the page
    opens, the last call it makes is [page.close()]. *)
Theorem opened_page_is_closed pl pn pc pe keywords location page companyName a u s :
  page_opens pl s = true -> page_opens pn s = true ->
  page_opens pc s = true -> page_opens pe s = true ->
  last (st_calls (snd (scrapeLinkedIn pl keywords location page s))) = Some ClosePage
  /\ last (st_calls (snd (scrapeNaukri pn keywords location page s))) = Some ClosePage
  /\ last (st_calls (snd (findCareerPage pc companyName s))) = Some ClosePage
  /\ last (st_calls (snd (findHREmail pe (VStr (String a u)) s))) = Some ClosePage.
Proof.
  intros Hl Hn Hc He. split; [| split; [| split]].
  - clear Hn Hc He. revert Hl.
    run_page pl s; intros H; first [discriminate H | apply last_snoc].
  - clear Hl Hc He. revert Hn.
    run_page pn s; intros H; first [discriminate H | apply last_snoc].
  - clear Hl Hn He. revert Hc.
    run_page pc s; intros H; first [discriminate H | apply last_snoc].
  - clear Hl Hn Hc. revert He.
    run_page pe s; intros H; first [discriminate H | apply last_snoc].
Qed.

(** LinkedIn's results never show up, and the career page fails to load:
    the pages are closed all the same. *)
Lemma opened_page_is_closed_witness :
  last (st_calls (snd (scrapeLinkedIn Fixture.timing_out "backend engineer" "India" 0
                         initial_state))) = Some ClosePage
  /\ last (st_calls (snd (scrapeNaukri (Fixture.answering Fixture.two_tuples)
                            "backend engineer" "India" 0 initial_state))) = Some ClosePage
  /\ last (st_calls (snd (findCareerPage (Fixture.answering None) "Acme" initial_state)))
     = Some ClosePage
  /\ last (st_calls (snd (findHREmail Fixture.timing_out
                            (VStr "https://acme.example/careers") initial_state)))
     = Some ClosePage.
Proof.
  apply (opened_page_is_closed Fixture.timing_out (Fixture.answering Fixture.two_tuples)
           (Fixture.answering None) Fixture.timing_out "backend engineer" "India" 0
           "Acme" "h" "ttps://acme.example/careers" initial_state);
    reflexivity.
Defined.

(** ** What the extractors make of the cards *)

Lemma omap_imap_filter {A B} (keep : A -> bool) (R : A -> B -> Prop) (l : list A) :
  forall f : nat -> A -> option B,
    (forall i a, keep a = false -> f i a = None) ->
    (forall i a, keep a = true -> exists b, f i a = Some b /\ R a b) ->
    Forall2 R (List.filter keep l) (omap id (imap f l)).
Proof.
  induction l as [| a l IH]; intros f Hskip Hkeep.
  - constructor.
  - rewrite imap_cons. cbn [List.filter omap]. destruct (keep a) eqn:Ka.
    + destruct (Hkeep O a Ka) as (b & -> & Hb). cbn [id].
      constructor; [exact Hb |]. apply IH; intros i a'; [apply Hskip | apply Hkeep].
    + rewrite (Hskip O a Ka). cbn [id].
      apply IH; intros i a'; [apply Hskip | apply Hkeep].
Qed.

(** X5.  The callbacks keep exactly the cards that have their mandatory
    elements (title, company and link for LinkedIn; title and company for
    Naukri), one job per kept card, in the order of the page, and the job
    carries the title, the company and, for LinkedIn, the link of its
    card. *)
Theorem extractors_keep_the_complete_cards
    (li_cards : list linkedin_card) (nk_cards : list naukri_card) :
  Forall2 (fun c (j : JobRecord) =>
             j !! "title" = VStr <$> li_title c
             /\ j !! "company" = VStr <$> li_company c
             /\ j !! "jobUrl" = VStr <$> li_link c)
          (List.filter linkedin_complete li_cards) (linkedin_jobs li_cards)
  /\ Forall2 (fun c (j : JobRecord) =>
                j !! "title" = VStr <$> (fst <$> nk_title c)
                /\ j !! "company" = VStr <$> nk_company c)
             (List.filter naukri_complete nk_cards) (naukri_jobs nk_cards).
Proof.
  split.
  - apply omap_imap_filter; intros i c; unfold linkedin_complete, linkedin_job;
      destruct (li_title c), (li_company c), (li_link c); try discriminate;
      try reflexivity.
    intros _. eexists. split; [reflexivity |]. repeat split.
  - apply omap_imap_filter; intros i c; unfold naukri_complete, naukri_job;
      destruct (nk_title c) as [[title href] |], (nk_company c); try discriminate;
      try reflexivity.
    intros _. eexists. split; [reflexivity |]. repeat split.
Qed.

Lemma linkedin_job_scraped index c j :
  linkedin_job index c = Some j -> scraped_from "linkedin" j.
Proof.
  unfold linkedin_job.
  destruct (li_title c), (li_company c), (li_link c); try discriminate.
  intros [= <-]. unfold scraped_from.
  repeat split; eexists; reflexivity.
Qed.

Lemma naukri_job_scraped index c j :
  naukri_job index c = Some j -> scraped_from "naukri" j.
Proof.
  unfold naukri_job.
  destruct (nk_title c) as [[title href] |], (nk_company c); try discriminate.
  intros [= <-]. unfold scraped_from.
  repeat split; eexists; reflexivity.
Qed.

Lemma scrape_source_scraped w keywords location k source s jobs s' :
  scrape_source w keywords location k source s = (Ret jobs, s') ->
  Forall (fun j => known_source source = true /\ scraped_from source j) jobs.
Proof.
  unfold scrape_source, known_source.
  destruct (String.eqb source "linkedin") eqn:El;
    [| destruct (String.eqb source "naukri") eqn:En].
  - apply String.eqb_eq in El as ->. unfold bind at 1. simpl. intros H.
    apply scrapeLinkedIn_ret in H as (cards & _ & ->).
    apply Forall_forall. intros j Hj. split; [reflexivity |].
    unfold linkedin_jobs in Hj. apply list_elem_of_omap in Hj as (o & Ho & Hid).
    apply elem_of_lookup_imap in Ho as (i & c & -> & _).
    eapply linkedin_job_scraped. exact Hid.
  - apply String.eqb_eq in En as ->. unfold bind at 1. simpl. intros H.
    apply scrapeNaukri_ret in H as (cards & _ & ->).
    apply Forall_forall. intros j Hj. split; [reflexivity |].
    unfold naukri_jobs in Hj. apply list_elem_of_omap in Hj as (o & Ho & Hid).
    apply elem_of_lookup_imap in Ho as (i & c & -> & _).
    eapply naukri_job_scraped. exact Hid.
  - intros [= <- _]. constructor.
Qed.

Lemma extractions_scraped w keywords location rps sources :
  forall k s,
    Forall (fun j => exists source,
                       source ∈ sources /\ known_source source = true
                       /\ scraped_from source j)
           (concat (map (kept rps) (extractions w keywords location rps k sources s))).
Proof.
  induction sources as [| source rest IH]; intros k s.
  - constructor.
  - cbn [extractions map concat]. apply Forall_app. split.
    + destruct (scrape_source w keywords location k source s) as [[jobs | e] s1] eqn:E;
        cbn [fst kept]; [| constructor].
      apply slice0_Forall.
      eapply Forall_impl; [exact (scrape_source_scraped _ _ _ _ _ _ _ _ E) |].
      intros j [Hk Hj]. exists source. split; [apply list_elem_of_here | auto].
    + eapply Forall_impl; [apply IH |].
      intros j (src & Hin & Hk & Hj). exists src.
      split; [by apply list_elem_of_further | auto].
Qed.

Lemma enrich_step_scraped source o c :
  enrich_step o c -> scraped_from source o -> scraped_from source c.
Proof.
  intros Hstep. unfold scraped_from.
  rewrite !(enrich_step_frame o c _ Hstep) by reflexivity. auto.
Qed.

(** ** The jobs of the complete event *)

(** X6.  Every job of the complete event was built by the extractor of one of
    the listed sources, which is a known one: it is tagged with that
    source, so a request for a single source gets jobs of that source
    only; its status is [scraped], which the enrichment never changes;
    and it has an id, a title, a company, a location, a link and a
    posting date. *)
Theorem complete_jobs_are_tagged w req a k sources s :
  req_keywords req = Some (String a k) ->
  req_sources req = Some sources ->
  exists final s',
    handler w req s = (Ret tt, s')
    /\ res_frames (st_res s') = (res_frames (st_res s) ++ stream_of sources final)%list
    /\ forall job : JobRecord,
         job ∈ final ->
         exists source,
           source ∈ sources /\ known_source source = true /\ scraped_from source job.
Proof.
  intros Hk Hs.
  destruct (handler_run w req a k sources s Hk Hs)
    as (final & s' & Hrun & Hframes & _ & _ & _ & _ & Hlen & _ & Hin).
  exists final, s'. split; [exact Hrun |]. split; [exact Hframes |].
  intros job Hjob.
  apply list_elem_of_lookup in Hjob as [j Hj].
  pose proof (lookup_lt_Some _ _ _ Hj) as Hlt. rewrite Hlen in Hlt.
  destruct (lookup_lt_is_Some_2 _ _ Hlt) as [o Ho].
  destruct (Hin j o Ho) as (c & Hc & Hstep).
  assert (c = job) as -> by congruence.
  pose proof (extractions_scraped w (String a k) (req_location req)
                (resultsPerSource (request_maxResults req) sources) sources 0%nat s) as Hall.
  rewrite Forall_lookup in Hall. destruct (Hall j o Ho) as (source & Hsrc & Hknown & Ho').
  exists source. split; [exact Hsrc |]. split; [exact Hknown |].
  eapply enrich_step_scraped; eassumption.
Qed.

Lemma complete_jobs_are_tagged_witness :
  exists final s',
    handler Fixture.calm (Fixture.scrape ["naukri"] (Some 10)) initial_state = (Ret tt, s')
    /\ res_frames (st_res s') = stream_of ["naukri"] final
    /\ forall job : JobRecord,
         job ∈ final ->
         exists source,
           source ∈ ["naukri"] /\ known_source source = true /\ scraped_from source job.
Proof.
  exact (complete_jobs_are_tagged Fixture.calm (Fixture.scrape ["naukri"] (Some 10))
           "b" "ackend engineer" ["naukri"] initial_state eq_refl eq_refl).
Defined.

(** ** Ids *)

Lemma pretty_N_char_dashless x : Ascii.eqb (pretty_N_char x) "-"%char = false.
Proof. unfold pretty_N_char. by repeat case_match. Qed.

Lemma pretty_N_go_dashless x : forall s, dashless s = true -> dashless (pretty_N_go x s) = true.
Proof.
  induction (N.lt_wf_0 x) as [x _ IH]; intros s Hs.
  assert (x = 0 \/ 0 < x)%N as [-> | Hx] by lia.
  - by rewrite pretty_N_go_0.
  - rewrite pretty_N_go_step by done. apply IH; [by apply N.div_lt |].
    simpl. by rewrite pretty_N_char_dashless.
Qed.

Lemma pretty_N_dashless (x : N) : dashless (pretty x) = true.
Proof.
  unfold pretty, pretty_N. case_decide; [reflexivity |].
  by apply pretty_N_go_dashless.
Qed.

Lemma pretty_nat_dashless (x : nat) : dashless (pretty x) = true.
Proof. apply pretty_N_dashless. Qed.

(** Two texts cut at their first dash agree part by part. *)
Lemma split_at_dash d1 : forall d2 r1 r2,
  dashless d1 = true -> dashless d2 = true ->
  d1 +:+ String "-" r1 = d2 +:+ String "-" r2 -> d1 = d2 /\ r1 = r2.
Proof.
  induction d1 as [| c d1 IH]; intros [| c' d2] r1 r2 H1 H2 H; simpl in *.
  - injection H as ->. auto.
  - injection H as <- _. discriminate H2.
  - injection H as -> _. discriminate H1.
  - injection H as -> H.
    apply andb_true_iff in H1 as [_ H1]. apply andb_true_iff in H2 as [_ H2].
    destruct (IH d2 r1 r2 H1 H2 H) as [-> ->]. auto.
Qed.

Lemma id_index prefix (now now' : N) (i i' : nat) :
  prefix +:+ pretty now +:+ "-" +:+ pretty i = prefix +:+ pretty now' +:+ "-" +:+ pretty i' ->
  i = i'.
Proof.
  intros H. induction prefix as [| c prefix IH].
  - simpl in H.
    apply split_at_dash in H as [_ H]; [| apply pretty_N_dashless..].
    by apply (inj pretty) in H.
  - injection H as H. by apply IH.
Qed.

Lemma omap_imap_NoDup {A B K} (key : B -> K) (l : list A) :
  forall f : nat -> A -> option B,
    (forall i i' a a' b b',
        f i a = Some b -> f i' a' = Some b' -> key b = key b' -> i = i') ->
    NoDup (key <$> omap id (imap f l)).
Proof.
  induction l as [| a l IH]; intros f Hinj.
  - constructor.
  - rewrite imap_cons.
    assert (NoDup (key <$> omap id (imap (f ∘ S) l))) as Hrest.
    { apply IH. intros i i' x x' b b' Hb Hb' Hkey.
      by injection (Hinj (S i) (S i') x x' b b' Hb Hb' Hkey). }
    destruct (f O a) as [b |] eqn:E; [| exact Hrest].
    change (NoDup (key b :: (key <$> omap id (imap (f ∘ S) l)))).
    apply NoDup_cons. split; [| exact Hrest].
    intros Hin. apply list_elem_of_fmap in Hin as (b' & Hkey & Hb').
    apply list_elem_of_omap in Hb' as (o & Ho & Hid).
    apply elem_of_lookup_imap in Ho as (i & x & -> & _).
    discriminate (Hinj O (S i) a x b b' E Hid Hkey).
Qed.

Lemma linkedin_job_id index c j :
  linkedin_job index c = Some j ->
  j !! "id" = Some (VStr ("linkedin" +:+ "-" +:+ pretty (li_now c) +:+ "-" +:+ pretty index)).
Proof.
  unfold linkedin_job.
  destruct (li_title c), (li_company c), (li_link c); try discriminate.
  intros [= <-]. reflexivity.
Qed.

Lemma naukri_job_id index c j :
  naukri_job index c = Some j ->
  j !! "id" = Some (VStr ("naukri" +:+ "-" +:+ pretty (nk_now c) +:+ "-" +:+ pretty index)).
Proof.
  unfold naukri_job.
  destruct (nk_title c) as [[t h] |], (nk_company c); try discriminate.
  intros [= <-]. reflexivity.
Qed.

Lemma linkedin_ids_NoDup cards :
  NoDup ((fun j : JobRecord => j !! "id") <$> linkedin_jobs cards).
Proof.
  apply omap_imap_NoDup. intros i i' c c' b b' Hb Hb' Hkey.
  apply linkedin_job_id in Hb, Hb'. rewrite Hb, Hb' in Hkey.
  injection Hkey as Hid. eapply (id_index EmptyString). exact Hid.
Qed.

Lemma naukri_ids_NoDup cards :
  NoDup ((fun j : JobRecord => j !! "id") <$> naukri_jobs cards).
Proof.
  apply omap_imap_NoDup. intros i i' c c' b b' Hb Hb' Hkey.
  apply naukri_job_id in Hb, Hb'. rewrite Hb, Hb' in Hkey.
  injection Hkey as Hid. eapply (id_index EmptyString). exact Hid.
Qed.

(** X7.  Within the result of one extractor call no two jobs have the same
    id, whatever the clock shows: the id ends with the position of the
    card on the page. *)
Theorem ids_differ_within_one_extraction
    (li_cards : list linkedin_card) (nk_cards : list naukri_card) :
  NoDup ((fun j : JobRecord => j !! "id") <$> linkedin_jobs li_cards)
  /\ NoDup ((fun j : JobRecord => j !! "id") <$> naukri_jobs nk_cards).
Proof. split; [apply linkedin_ids_NoDup | apply naukri_ids_NoDup]. Qed.

(** ** The shape of the extracted addresses *)

Lemma run_length_le cls s : (Regex.run_length cls s <= length s)%nat.
Proof. induction s as [| c s IH]; simpl; [lia |]. destruct (cls c); simpl; lia. Qed.

Lemma run_length_take cls s : forall n,
  (n <= Regex.run_length cls s)%nat -> Forall (fun c => cls c = true) (take n s).
Proof.
  induction s as [| c s IH]; intros n Hn; simpl in *.
  - rewrite take_nil. constructor.
  - destruct n as [| n]; [constructor |].
    destruct (cls c) eqn:E; [| lia].
    simpl. constructor; [exact E |]. apply IH. lia.
Qed.

Lemma first_some_elem {A B} (f : A -> option B) l b :
  Regex.first_some f l = Some b -> exists a, a ∈ l /\ f a = Some b.
Proof.
  induction l as [| a l IH]; simpl; [discriminate |].
  destruct (f a) as [b' |] eqn:E.
  - intros [= <-]. exists a. split; [apply list_elem_of_here | exact E].
  - intros H. destruct (IH H) as (a' & Hin & Ha').
    exists a'. split; [by apply list_elem_of_further | exact Ha'].
Qed.

Lemma elem_of_countdown a hi lo : a ∈ Regex.countdown hi lo -> (lo <= a <= hi)%nat.
Proof.
  unfold Regex.countdown. rewrite elem_of_reverse, elem_of_seq. lia.
Qed.

Lemma match_tld_bounds s t :
  Regex.match_tld s = Some t -> (2 <= t <= Regex.run_length Regex.is_tld s)%nat.
Proof.
  unfold Regex.match_tld. intros H.
  apply first_some_elem in H as (a & Ha & Hf).
  apply elem_of_countdown in Ha.
  destruct (Regex.boundary _ _); [| discriminate]. injection Hf as <-. exact Ha.
Qed.

Lemma match_domain_parts s m :
  Regex.match_domain s = Some m ->
  exists d t,
    m = (d + 1 + t)%nat
    /\ (1 <= d <= Regex.run_length Regex.is_domain s)%nat
    /\ s !! d = Some "."%char
    /\ (2 <= t <= Regex.run_length Regex.is_tld (drop (S d) s))%nat.
Proof.
  unfold Regex.match_domain. intros H.
  apply first_some_elem in H as (d & Hd & Hf).
  apply elem_of_countdown in Hd.
  destruct (s !! d) as [c |] eqn:Ec; [| discriminate].
  destruct (Ascii.eqb_spec c "."%char) as [-> |]; [| discriminate].
  destruct (Regex.match_tld (drop (S d) s)) as [t |] eqn:Et; [| discriminate].
  injection Hf as <-. exists d, t. split; [reflexivity |].
  split; [exact Hd |]. split; [exact Ec |]. by apply match_tld_bounds.
Qed.

Lemma take_through n (s : list ascii) c :
  s !! n = Some c -> forall k, take (n + S k) s = (take n s ++ c :: take k (drop (S n) s))%list.
Proof.
  intros Hc k. rewrite <- take_take_drop.
  rewrite (drop_S _ _ _ Hc). reflexivity.
Qed.

Lemma match_here_shape prev s m : Regex.match_here prev s = Some m -> address_shape m.
Proof.
  unfold Regex.match_here.
  destruct (Regex.boundary prev (head s)); [| discriminate].
  destruct (Regex.run_length Regex.is_local s) as [| l'] eqn:El; [discriminate |].
  destruct (s !! S l') as [c |] eqn:Ec; [| discriminate].
  destruct (Ascii.eqb_spec c "@"%char) as [-> |]; [| discriminate].
  destruct (Regex.match_domain (drop (S (S l')) s)) as [n |] eqn:Ed; [| discriminate].
  intros [= <-].
  apply match_domain_parts in Ed as (d & t & -> & Hd & Hdot & Ht).
  set (s2 := drop (S (S l')) s) in *.
  exists (take (S l') s), (take d s2), (take t (drop (S d) s2)).
  split; [| split; [| split; [| split; [| split; [| split]]]]].
  - replace (S (l' + 1 + (d + 1 + t)))%nat with (S l' + S (d + S t))%nat by lia.
    rewrite (take_through _ _ _ Ec). fold s2.
    rewrite (take_through _ _ _ Hdot). reflexivity.
  - pose proof (run_length_le Regex.is_local s) as Hle.
    intros H. apply (f_equal length) in H. rewrite length_take in H.
    simpl length in H. lia.
  - apply run_length_take. lia.
  - pose proof (run_length_le Regex.is_domain s2) as Hle.
    intros H. apply (f_equal length) in H. rewrite length_take in H.
    simpl length in H. lia.
  - apply run_length_take. lia.
  - pose proof (run_length_le Regex.is_tld (drop (S d) s2)) as Hle.
    rewrite length_take. lia.
  - apply run_length_take. lia.
Qed.

Lemma scan_shape s : forall skip prev m, m ∈ Regex.scan skip prev s -> address_shape m.
Proof.
  induction s as [| c s IH]; intros skip prev m Hm; simpl in Hm.
  - by apply elem_of_nil in Hm.
  - destruct skip as [| skip]; [| eauto].
    destruct (Regex.match_here prev (c :: s)) as [m0 |] eqn:E; [| eauto].
    apply elem_of_cons in Hm as [-> | Hm]; [| eauto].
    eapply match_here_shape. exact E.
Qed.

Lemma match_emails_shape text emails e :
  Regex.match_emails text = Some emails -> e ∈ emails ->
  address_shape (String.list_ascii_of_string e).
Proof.
  unfold Regex.match_emails.
  destruct (Regex.scan 0 None (String.list_ascii_of_string text)) as [| m ms] eqn:E;
    [discriminate |].
  intros [= <-] He.
  apply list_elem_of_In, (in_map_iff _ (m :: ms)) in He as (m' & <- & Hm').
  rewrite String.list_ascii_of_string_of_list_ascii.
  eapply scan_shape. rewrite E. apply list_elem_of_In. exact Hm'.
Qed.

(** X9.  Every address that [match] extracts from a page text has the shape
    [local@domain.tld] of the pattern and is a piece of the text. *)
Theorem extracted_addresses_have_the_shape text emails e :
  Regex.match_emails text = Some emails -> e ∈ emails ->
  address_shape (String.list_ascii_of_string e)
  /\ exists before after,
       String.list_ascii_of_string text
       = (before ++ String.list_ascii_of_string e ++ after)%list.
Proof.
  intros He Hin. split; [by eapply match_emails_shape |].
  eapply match_emails_pieces; eassumption.
Qed.

Lemma extracted_addresses_have_the_shape_witness :
  address_shape (String.list_ascii_of_string "Careers@acme.example")
  /\ exists before after,
       String.list_ascii_of_string Fixture.careers_text
       = (before ++ String.list_ascii_of_string "Careers@acme.example" ++ after)%list.
Proof.
  apply (extracted_addresses_have_the_shape Fixture.careers_text
           ["info@acme.example"; "Careers@acme.example"] "Careers@acme.example").
  - reflexivity.
  - apply list_elem_of_further, list_elem_of_here.
Defined.

(** X10.  A page text without an at sign has no address to extract: the
    callback of [findHREmail] answers [null]. *)
Theorem no_at_sign_no_address text :
  "@"%char ∉ String.list_ascii_of_string text ->
  Regex.match_emails text = None /\ select_email text = VNull.
Proof.
  intros Hno.
  assert (Regex.match_emails text = None) as Hnone.
  { destruct (Regex.match_emails text) as [emails |] eqn:E; [| reflexivity].
    exfalso. apply Hno.
    assert (exists e, e ∈ emails) as [e He].
    { unfold Regex.match_emails in E.
      destruct (Regex.scan 0 None (String.list_ascii_of_string text)) as [| m ms];
        [discriminate |].
      injection E as <-. eexists. apply list_elem_of_here. }
    destruct (match_emails_shape text emails e E He) as (lo & dom & tld & Hm & _).
    destruct (match_emails_pieces text emails e E He) as (before & after & ->).
    rewrite Hm. rewrite !elem_of_app. right. left. right.
    apply list_elem_of_here. }
  split; [exact Hnone |]. unfold select_email. rewrite Hnone. reflexivity.
Qed.

Lemma no_at_sign_no_address_witness :
  Regex.match_emails "Call the front desk, 9 to 5." = None
  /\ select_email "Call the front desk, 9 to 5." = VNull.
Proof.
  apply (no_at_sign_no_address "Call the front desk, 9 to 5.").
  apply (bool_decide_unpack _). vm_compute. exact I.
Defined.

(** ** How many jobs a request gets *)

Lemma kept_count_length budget o :
  0 <= budget -> length (kept (Num (inject_Z budget)) o) = kept_count budget o.
Proof.
  intros Hb. destruct o as [jobs | e]; [| reflexivity]. simpl.
  pose proof (slice0_length jobs budget Hb). lia.
Qed.

Lemma kept_lengths budget (l : list (outcome (list JobRecord))) :
  0 <= budget ->
  length (concat (map (kept (Num (inject_Z budget))) l)) = sum_list_with (kept_count budget) l.
Proof.
  intros Hb. induction l as [| o l IH]; [reflexivity |].
  cbn [map concat sum_list_with]. by rewrite length_app, IH, kept_count_length.
Qed.

(** X11.  For a valid request with [maxResults] below [2^53] the number of
    jobs in the complete event is exactly the sum, over the listed
    sources, of the smaller of the budget and the number of jobs the
    extractor returned, a source whose extractor threw counting for
    nothing; the budget is [Math.ceil(maxResults / sources.length)], which
    in this range is the ceiling of the quotient.  The enrichment changes
    no count. *)
Theorem complete_event_counts_what_was_kept w req a k sources s :
  valid_request req = true ->
  req_keywords req = Some (String a k) ->
  req_sources req = Some sources ->
  request_maxResults req < 2 ^ 53 ->
  exists budget final s',
    resultsPerSource64 (request_maxResults req) sources = Num (inject_Z budget)
    /\ is_ceiling (request_maxResults req) (length sources) budget
    /\ handler w req s = (Ret tt, s')
    /\ res_frames (st_res s') = (res_frames (st_res s) ++ stream_of sources final)%list
    /\ length final
       = sum_list_with (kept_count budget)
           (extractions w (String a k) (req_location req)
              (Num (inject_Z budget)) 0 sources s).
Proof.
  intros Hvalid Hk Hs Hsmall.
  destruct (valid_request_parts req Hvalid) as (a' & k' & source & rest & _ & Hs' & _ & Hm).
  assert (sources = source :: rest) as Hsrc by congruence.
  destruct (resultsPerSource_ceiling (request_maxResults req) sources
              ltac:(rewrite Hsrc; discriminate)) as (budget & Hrps & Hceil).
  assert (0 < budget) as Hpos.
  { apply (is_ceiling_positive (request_maxResults req) (length sources) budget Hm);
      [| exact Hceil]. rewrite Hsrc. simpl. lia. }
  destruct (handler_run w req a k sources s Hk Hs)
    as (final & s' & Hrun & Hframes & _ & _ & _ & _ & Hlen & _).
  exists budget, final, s'.
  split; [rewrite resultsPerSource64_exact by lia; exact Hrps |]. split; [exact Hceil |].
  split; [exact Hrun |]. split; [exact Hframes |].
  rewrite Hlen, Hrps. apply kept_lengths. lia.
Qed.

(** Ten results over one source that shows seven cards: seven jobs. *)
Lemma complete_event_counts_what_was_kept_witness :
  exists budget (final : list JobRecord) s',
    resultsPerSource64 10 ["linkedin"] = Num (inject_Z budget)
    /\ handler Fixture.calm (Fixture.scrape ["linkedin"] (Some 10)) initial_state
       = (Ret tt, s')
    /\ res_frames (st_res s') = stream_of ["linkedin"] final
    /\ length final = 7%nat.
Proof.
  destruct (complete_event_counts_what_was_kept Fixture.calm
              (Fixture.scrape ["linkedin"] (Some 10)) "b" "ackend engineer" ["linkedin"]
              initial_state eq_refl eq_refl eq_refl ltac:(by vm_compute))
    as (budget & final & s' & Hrps & _ & Hrun & Hframes & Hlen).
  exists budget, final, s'. split; [exact Hrps |]. split; [exact Hrun |].
  split; [exact Hframes |].
  rewrite Hlen. injection Hrps as <-. reflexivity.
Defined.

(** ** A [maxResults] that is not positive *)

Lemma kept_nothing (l : list (outcome (list JobRecord))) :
  concat (map (kept (Num (inject_Z 0))) l) = [].
Proof.
  induction l as [| o l IH]; [reflexivity |].
  cbn [map concat]. rewrite IH, app_nil_r.
  destruct o as [jobs | e]; [| reflexivity].
  simpl. rewrite slice0_integer. change (0 <? 0) with false.
  rewrite Z.min_l by lia. reflexivity.
Qed.

(** X12.  With [maxResults] zero or negative, and above [-2^53], the budget
    [Math.ceil(maxResults / sources.length)] is the ceiling of the
    quotient all the same, hence zero or negative.  A zero budget keeps
    nothing, so for [-sources.length < maxResults <= 0] the complete
    event is empty.  A negative budget makes [slice] count from the end:
    each source that returns keeps all its jobs but the last [-budget]. *)
Theorem nonpositive_maxResults w req a k sources s :
  req_keywords req = Some (String a k) ->
  req_sources req = Some sources ->
  sources <> [] ->
  - 2 ^ 53 < request_maxResults req <= 0 ->
  exists budget,
    resultsPerSource64 (request_maxResults req) sources = Num (inject_Z budget)
    /\ is_ceiling (request_maxResults req) (length sources) budget
    /\ budget <= 0
    /\ (forall sourceJobs : list JobRecord,
          kept (Num (inject_Z budget)) (Ret sourceJobs)
          = if budget =? 0 then []
            else take (length sourceJobs - Z.to_nat (- budget)) sourceJobs)
    /\ exists final s',
         handler w req s = (Ret tt, s')
         /\ res_frames (st_res s') = (res_frames (st_res s) ++ stream_of sources final)%list
         /\ length final
            = length (concat (map (kept (Num (inject_Z budget)))
                        (extractions w (String a k) (req_location req)
                           (Num (inject_Z budget)) 0 sources s)))
         /\ (- Z.of_nat (length sources) < request_maxResults req -> final = []).
Proof.
  intros Hk Hs Hne [Hlow Hm].
  destruct (resultsPerSource_ceiling (request_maxResults req) sources Hne)
    as (budget & Hrps & Hceil).
  assert (0 < length sources)%nat as Hn by (destruct sources; [congruence | simpl; lia]).
  pose proof (proj1 (is_ceiling_bounds _ _ _ Hn) Hceil) as [Hlo Hhi].
  assert (budget <= 0) as Hb by nia.
  exists budget.
  split; [rewrite resultsPerSource64_exact by lia; exact Hrps |].
  split; [exact Hceil |]. split; [exact Hb |].
  split.
  - intros sourceJobs. simpl. rewrite slice0_integer.
    destruct (Z.eqb_spec budget 0) as [-> | Hnz].
    { change (0 <? 0) with false. rewrite Z.min_l by lia. reflexivity. }
    destruct (Z.ltb_spec budget 0); [| lia]. f_equal. lia.
  - destruct (handler_run w req a k sources s Hk Hs)
      as (final & s' & Hrun & Hframes & _ & _ & _ & _ & Hlen & _).
    rewrite Hrps in Hlen.
    exists final, s'. split; [exact Hrun |]. split; [exact Hframes |].
    split; [exact Hlen |].
    intros Hsmall. assert (budget = 0) as Hzero by nia.
    rewrite Hzero, kept_nothing in Hlen. by apply nil_length_inv.
Qed.

(** [maxResults = 0]: nothing is kept.  [maxResults = -2] over one source
    that shows seven cards: the budget is -2 and five jobs are kept. *)
Lemma nonpositive_maxResults_witness :
  (exists s',
      handler Fixture.calm (Fixture.scrape ["linkedin"] (Some 0)) initial_state = (Ret tt, s')
      /\ res_frames (st_res s') = stream_of ["linkedin"] [])
  /\ (exists (final : list JobRecord) s',
        resultsPerSource64 (-2) ["linkedin"] = Num (inject_Z (-2))
        /\ handler Fixture.calm (Fixture.scrape ["linkedin"] (Some (-2))) initial_state
           = (Ret tt, s')
        /\ complete_events (res_frames (st_res s')) = [final]
        /\ length final = 5%nat).
Proof.
  split.
  - destruct (nonpositive_maxResults Fixture.calm (Fixture.scrape ["linkedin"] (Some 0))
                "b" "ackend engineer" ["linkedin"] initial_state eq_refl eq_refl
                ltac:(discriminate) ltac:(by vm_compute))
      as (budget & _ & _ & _ & _ & final & s' & Hrun & Hframes & _ & H).
    exists s'. split; [exact Hrun |]. rewrite Hframes, H by (by vm_compute). reflexivity.
  - destruct (nonpositive_maxResults Fixture.calm (Fixture.scrape ["linkedin"] (Some (-2)))
                "b" "ackend engineer" ["linkedin"] initial_state eq_refl eq_refl
                ltac:(discriminate) ltac:(by vm_compute))
      as (budget & Hrps & _ & _ & _ & final & s' & Hrun & Hframes & Hlen & _).
    injection Hrps as Hb. rewrite <- Hb in Hlen.
    exists final, s'. split; [reflexivity |]. split; [exact Hrun |].
    split; [rewrite Hframes; reflexivity | exact Hlen].
Defined.

(** ** Sources the handler does not know *)

Lemma scrape_loop_unknown w keywords location rps sources :
  forallb (fun source => negb (known_source source)) sources = true ->
  forall k allJobs s,
    scrape_loop w keywords location rps k sources allJobs s = (Ret allJobs, s).
Proof.
  induction sources as [| source rest IH]; intros Hall k allJobs s; [reflexivity |].
  cbn [forallb] in Hall. apply andb_true_iff in Hall as [Hsrc Hrest].
  unfold known_source in Hsrc. apply negb_true_iff, orb_false_iff in Hsrc as [Hl Hn].
  simpl scrape_loop. unfold scrape_iteration, try_catch, scrape_source.
  rewrite Hl, Hn. unfold bind, ret.
  destruct (slice0_prefix (@nil JobRecord) rps) as [n Hnil].
  rewrite Hnil, take_nil, app_nil_r. by apply IH.
Qed.

(** X13.  A list of sources none of which is [linkedin] or [naukri] is treated
    like an empty list: no error, no page opened, the two fixed progress
    frames and a complete event without jobs. *)
Theorem unknown_sources_are_ignored w req a k sources s :
  req_keywords req = Some (String a k) ->
  req_sources req = Some sources ->
  forallb (fun source => negb (known_source source)) sources = true ->
  exists s',
    handler w req s = (Ret tt, s')
    /\ res_frames (st_res s')
       = (res_frames (st_res s)
          ++ [Progress "Finding career pages..." 60; Progress "Complete!" 100;
              Complete []])%list
    /\ res_status (st_res s') = res_status (st_res s)
    /\ res_json (st_res s') = res_json (st_res s)
    /\ res_ended (st_res s') = true
    /\ st_calls s' = st_calls s.
Proof.
  intros Hk Hs Hall. unfold handler, try_catch, pipeline. rewrite Hk, Hs.
  unfold bind at 1. rewrite (scrape_loop_unknown _ _ _ _ _ Hall).
  eexists. split; [reflexivity |]. simpl.
  rewrite <- !app_assoc. repeat split.
Qed.

Lemma unknown_sources_are_ignored_witness :
  exists s',
    handler Fixture.calm (Fixture.scrape ["indeed"; "LinkedIn"] (Some 10)) initial_state
    = (Ret tt, s')
    /\ res_frames (st_res s')
       = [Progress "Finding career pages..." 60; Progress "Complete!" 100; Complete []]
    /\ st_calls s' = [].
Proof.
  destruct (unknown_sources_are_ignored Fixture.calm
              (Fixture.scrape ["indeed"; "LinkedIn"] (Some 10)) "b" "ackend engineer"
              ["indeed"; "LinkedIn"] initial_state eq_refl eq_refl eq_refl)
    as (s' & Hrun & Hframes & _ & _ & _ & Hcalls).
  exists s'. auto.
Defined.

(** ** The three answers of the handler *)

Lemma character_is_no_source (text : list ascii) :
  forallb (fun source => negb (known_source source))
    (map (fun c => String c EmptyString) text) = true.
Proof.
  induction text as [| c text IH]; [reflexivity |].
  cbn [map forallb]. rewrite IH, andb_true_r.
  unfold known_source. cbn.
  destruct (Ascii.eqb c "l"), (Ascii.eqb c "n"); reflexivity.
Qed.

(** X4.  The handler never throws and always ends the response, in one of
    three ways decided by the body alone.  Keywords missing or empty:
    status 400 with the keywords error.  Keywords present and a [sources]
    that cannot be iterated (missing, [null], a boolean, a number, a plain
    object): status 500 with the scrape error, thrown inside the outer
    [try] before anything is written.  Keywords present and a [sources]
    that is an array or a string: the stream with its complete event,
    status untouched and no JSON body; the characters of a string are
    sources the handler does not know, so its stream is the two fixed
    progress frames and a complete event without jobs.  The two error
    answers come with no frame written and no call to the engine. *)
Theorem handler_answers_in_one_of_three_ways w keywords location sources maxResults s :
  st_res s = fresh_response ->
  exists s',
    handler_of_body w keywords location sources maxResults s = (Ret tt, s')
    /\ res_ended (st_res s') = true
    /\ ((truthy_str keywords = false
         /\ res_status (st_res s') = 400
         /\ res_json (st_res s')
            = Some {| body_error := "Keywords are required"; body_details := None |}
         /\ res_frames (st_res s') = []
         /\ st_calls s' = st_calls s)
        \/ (truthy_str keywords = true
            /\ (sources = SourcesMissing \/ sources = SourcesNull
                \/ sources = SourcesScalar \/ sources = SourcesObject)
            /\ res_status (st_res s') = 500
            /\ res_json (st_res s')
               = Some {| body_error := "Failed to scrape jobs";
                         body_details := Some TypeError |}
            /\ res_frames (st_res s') = []
            /\ st_calls s' = st_calls s)
        \/ (truthy_str keywords = true
            /\ res_status (st_res s') = 200
            /\ res_json (st_res s') = None
            /\ ((exists elements final,
                   sources = SourcesArray elements
                   /\ res_frames (st_res s')
                      = stream_of (map (default EmptyString) elements) final)
                \/ (exists text,
                      sources = SourcesText text
                      /\ res_frames (st_res s') = stream_of [] []
                      /\ st_calls s' = st_calls s)))).
Proof.
  intros Hfresh. unfold handler_of_body.
  destruct keywords as [[| a k] |].
  1, 3: eexists; (split; [reflexivity |]);
    (split; [reflexivity |]); left; simpl; rewrite Hfresh; auto 10.
  destruct sources as [| | | | text | elements].
  1-4: eexists; (split; [reflexivity |]);
    (split; [reflexivity |]); right; left; simpl; rewrite Hfresh; auto 10.
  - pose proof (character_is_no_source (String.list_ascii_of_string text)) as Hall.
    eexists. unfold handler, try_catch, pipeline.
    cbn [req_keywords req_sources req_location req_maxResults iterated].
    unfold bind at 1. rewrite (scrape_loop_unknown _ _ _ _ _ Hall).
    split; [reflexivity |]. split; [reflexivity |].
    right. right. simpl. rewrite Hfresh.
    split; [reflexivity |]. split; [reflexivity |]. split; [reflexivity |].
    right. exists text. auto.
  - destruct (handler_run w
                {| req_keywords := Some (String a k); req_location := location;
                   req_sources := iterated (SourcesArray elements);
                   req_maxResults := maxResults |}
                a k (map (default EmptyString) elements) s eq_refl eq_refl)
      as (final & s' & Hrun & Hframes & Hstatus & Hjson & Hended & _).
    exists s'. split; [exact Hrun |]. split; [exact Hended |].
    right. right. rewrite Hframes, Hstatus, Hjson, Hfresh.
    split; [reflexivity |]. split; [reflexivity |]. split; [reflexivity |].
    left. exists elements, final. auto.
Qed.

(** Empty keywords; a body without [sources]; a number for [sources]; and
    a source name given as a string instead of a list. *)
Lemma handler_answers_in_one_of_three_ways_witness :
  res_status (st_res (snd (handler_of_body Fixture.calm (Some EmptyString) None
      (SourcesArray [Some "linkedin"]) None initial_state))) = 400
  /\ res_status (st_res (snd (handler_of_body Fixture.calm (Some "backend engineer") None
      SourcesMissing None initial_state))) = 500
  /\ res_status (st_res (snd (handler_of_body Fixture.calm (Some "backend engineer") None
      SourcesScalar None initial_state))) = 500
  /\ res_frames (st_res (snd (handler_of_body Fixture.calm (Some "backend engineer") None
      (SourcesText "linkedin") None initial_state)))
     = [Progress "Finding career pages..." 60; Progress "Complete!" 100; Complete []].
Proof.
  split; [| split; [| split]].
  - destruct (handler_answers_in_one_of_three_ways Fixture.calm (Some EmptyString) None
                (SourcesArray [Some "linkedin"]) None initial_state eq_refl)
      as (s' & Hrun & _ & [(_ & H & _) | [(H & _) | (H & _)]]).
    + rewrite Hrun. exact H.
    + discriminate H.
    + discriminate H.
  - destruct (handler_answers_in_one_of_three_ways Fixture.calm (Some "backend engineer") None
                SourcesMissing None initial_state eq_refl)
      as (s' & Hrun & _ & [(H & _) | [(_ & _ & H & _) | (_ & _ & _ & H)]]).
    + discriminate H.
    + rewrite Hrun. exact H.
    + destruct H as [(? & ? & H & _) | (? & H & _)]; discriminate H.
  - destruct (handler_answers_in_one_of_three_ways Fixture.calm (Some "backend engineer") None
                SourcesScalar None initial_state eq_refl)
      as (s' & Hrun & _ & [(H & _) | [(_ & _ & H & _) | (_ & _ & _ & H)]]).
    + discriminate H.
    + rewrite Hrun. exact H.
    + destruct H as [(? & ? & H & _) | (? & H & _)]; discriminate H.
  - destruct (handler_answers_in_one_of_three_ways Fixture.calm (Some "backend engineer") None
                (SourcesText "linkedin") None initial_state eq_refl)
      as (s' & Hrun & _ & [(H & _) | [(_ & H & _) | (_ & _ & _ & H)]]).
    + discriminate H.
    + destruct H as [H | [H | [H | H]]]; discriminate H.
    + rewrite Hrun. destruct H as [(? & ? & H & _) | (? & _ & H & _)]; [discriminate H |].
      exact H.
Defined.

(** ** Where the pages are sent *)

Section Emits.

Context (Q : call -> Prop) {A B : Type}.

Lemma emits_quiet (c : M A) : (forall s, st_calls (snd (c s)) = st_calls s) -> emits Q c.
Proof. intros H s. exists []. rewrite app_nil_r. split; [apply H | constructor]. Qed.

Lemma emits_ret (a : A) : emits Q (ret a).
Proof. by apply emits_quiet. Qed.

Lemma emits_bind (c : M A) (k : A -> M B) :
  emits Q c -> (forall a, emits Q (k a)) -> emits Q (bind c k).
Proof.
  intros Hc Hk s. unfold bind. destruct (Hc s) as (a1 & C1 & F1).
  destruct (c s) as [[a | e] s1]; simpl in *.
  - destruct (Hk a s1) as (a2 & C2 & F2). exists (a1 ++ a2)%list.
    split; [by rewrite C2, C1, app_assoc | by apply Forall_app].
  - exists a1. auto.
Qed.

Lemma emits_try_catch (c : M A) (h : error -> M A) :
  emits Q c -> (forall e, emits Q (h e)) -> emits Q (try_catch c h).
Proof.
  intros Hc Hh s. unfold try_catch. destruct (Hc s) as (a1 & C1 & F1).
  destruct (c s) as [[a | e] s1]; simpl in *.
  - exists a1. auto.
  - destruct (Hh e s1) as (a2 & C2 & F2). exists (a1 ++ a2)%list.
    split; [by rewrite C2, C1, app_assoc | by apply Forall_app].
Qed.

End Emits.

Lemma emits_console_error Q line : emits Q (console_error line).
Proof. by apply emits_quiet. Qed.

Lemma emits_res_write Q f : emits Q (res_write f).
Proof. by apply emits_quiet. Qed.

Ltac expected_by_cases :=
  eexists; (split; [rewrite <- ?app_assoc; reflexivity |]);
  cbn [app]; repeat (apply Forall_cons; split); try apply Forall_nil;
  cbn [expected_call]; repeat split; eauto 10; discriminate.

Lemma expected_scrapeLinkedIn w merged p keywords location :
  emits (expected_call w keywords location merged) (scrapeLinkedIn p keywords location 0).
Proof. intros s. run_page p s; expected_by_cases. Qed.

Lemma expected_scrapeNaukri w merged p keywords location :
  emits (expected_call w keywords location merged) (scrapeNaukri p keywords location 0).
Proof. intros s. run_page p s; expected_by_cases. Qed.

Lemma expected_scrape_loop w merged keywords location rps sources :
  forall k allJobs,
    emits (expected_call w keywords (location_or_default location) merged)
          (scrape_loop w keywords location rps k sources allJobs).
Proof.
  induction sources as [| source rest IH]; intros k allJobs; [apply emits_ret |].
  simpl scrape_loop. apply emits_bind; [| intros; apply IH].
  unfold scrape_iteration. apply emits_try_catch.
  - apply emits_bind; [| intros; apply emits_ret].
    unfold scrape_source.
    destruct (String.eqb source "linkedin"); [| destruct (String.eqb source "naukri")].
    + apply emits_bind; [apply emits_res_write | intros; apply expected_scrapeLinkedIn].
    + apply emits_bind; [apply emits_res_write | intros; apply expected_scrapeNaukri].
    + apply emits_ret.
  - intros e. apply emits_bind; [apply emits_console_error | intros; apply emits_ret].
Qed.

(** A truthy answer of [findCareerPage] is the non-empty address its
    page showed. *)
Lemma findCareerPage_found p companyName s url :
  fst (findCareerPage p companyName s) = Ret url -> truthy url = true ->
  exists href, url = VStr href /\ href <> EmptyString
               /\ evaluate_result p = Some (Some href).
Proof.
  run_session p s; intros H T; try discriminate H;
    injection H as <-; try discriminate T.
  all: match goal with o : option string |- _ => destruct o as [[| c h] |] end;
    try discriminate T.
  all: exists (String c h); (split; [reflexivity |]); (split; [discriminate | reflexivity]).
Qed.

Lemma expected_findCareerPage w keywords location merged i job :
  (i < 5)%nat -> merged !! i = Some job ->
  emits (expected_call w keywords location merged)
        (findCareerPage (career_page w i) (to_string (job !! "company"))).
Proof.
  intros Hi Hjob s. generalize (career_page w i). intros p.
  run_page p s; expected_by_cases.
Qed.

Lemma expected_findHREmail w keywords location merged i href p :
  (i < 5)%nat -> is_Some (merged !! i) ->
  evaluate_result (career_page w i) = Some (Some href) -> href <> EmptyString ->
  emits (expected_call w keywords location merged) (findHREmail p (VStr href)).
Proof.
  intros Hi Hjob He Hne s. destruct href as [| a u]; [congruence |].
  run_page p s; expected_by_cases.
Qed.

Lemma expected_enrich_iteration w keywords location merged i cur job :
  (i < 5)%nat -> cur !! i = Some job -> merged !! i = Some job ->
  emits (expected_call w keywords location merged) (enrich_iteration w i cur).
Proof.
  intros Hi Hcur Hjob s. unfold enrich_iteration. rewrite Hcur.
  unfold try_catch at 1. unfold bind at 1.
  destruct (expected_findCareerPage w keywords location merged i job Hi Hjob s)
    as (added1 & C1 & F1).
  pose proof (findCareerPage_found (career_page w i) (to_string (job !! "company")) s) as Hfound.
  destruct (findCareerPage (career_page w i) (to_string (job !! "company")) s)
    as [[url | e] s1]; simpl in C1, Hfound.
  - cbv zeta. destruct (truthy url) eqn:T.
    + destruct (Hfound url eq_refl T) as (href & -> & Hne & He).
      assert (emits (expected_call w keywords location merged)
                (try_catch
                   (bind (findHREmail (email_page w i) (VStr href))
                      (fun email => ret (<[i := <["hrEmail" := email]>
                                                 (<["careerPageUrl" := VStr href]> job)]>
                                           (<[i := <["careerPageUrl" := VStr href]> job]> cur))))
                   (fun err => bind (console_error "Error enriching job data:")
                                 (fun _ => ret (<[i := <["careerPageUrl" := VStr href]> job]> cur)))))
        as Hrest.
      { apply emits_try_catch.
        - apply emits_bind; [| intros; apply emits_ret].
          apply (expected_findHREmail w keywords location merged i href); eauto.
        - intros e. apply emits_bind; [apply emits_console_error | intros; apply emits_ret]. }
      destruct (Hrest s1) as (added2 & C2 & F2).
      destruct (try_catch _ _ s1) as [[r | e] s2]; simpl in *.
      * exists (added1 ++ added2)%list.
        split; [by rewrite C2, C1, app_assoc | by apply Forall_app].
      * exists (added1 ++ added2)%list.
        split; [by rewrite C2, C1, app_assoc | by apply Forall_app].
    + exists added1. simpl. auto.
  - exists added1. simpl. auto.
Qed.

Lemma expected_enrich_loop w keywords location merged :
  forall fuel i (cur : list JobRecord),
    (forall j, (i <= j)%nat -> cur !! j = merged !! j) ->
    emits (expected_call w keywords location merged) (enrich_loop w fuel i cur).
Proof.
  induction fuel as [| fuel IH]; intros i cur Hinv; [apply emits_ret |].
  simpl enrich_loop.
  destruct (Nat.ltb_spec i (Nat.min (length cur) 5)) as [Hlt | Hge]; [| apply emits_ret].
  destruct (lookup_lt_is_Some_2 cur i ltac:(lia)) as [job Hjob].
  intros s. unfold bind.
  destruct (expected_enrich_iteration w keywords location merged i cur job
              ltac:(lia) Hjob ltac:(by rewrite <- Hinv) s) as (added1 & C1 & F1).
  destruct (enrich_iteration_run w i cur s job Hjob) as (job' & s1 & Hit & _).
  rewrite Hit in C1 |- *. simpl in C1.
  destruct (IH (S i) (<[i := job']> cur)) with (s := s1) as (added2 & C2 & F2).
  { intros j Hj. rewrite list_lookup_insert_ne by lia. apply Hinv. lia. }
  exists (added1 ++ added2)%list.
  split; [by rewrite C2, C1, app_assoc | by apply Forall_app].
Qed.

(** X14.  Every call a request makes to the engine is one of the expected
    ones.  Only the first result page of a source is ever asked for, with
    the keywords of the request and its location, which is India when the
    request has none or an empty one.  Every web search is for the company
    of one of the first five jobs the sources contributed, followed by the
    word careers; every other visit goes to the non-empty address which
    the search for one of these jobs found.  The time limits are 30 s for
    a result page, 10 s for the wait on it and 15 s for a search or a
    visit. *)
Theorem requests_visit_only_the_expected_pages w req a k sources s :
  req_keywords req = Some (String a k) ->
  req_sources req = Some sources ->
  let rps := resultsPerSource (request_maxResults req) sources in
  let merged := concat (map (kept rps)
                  (extractions w (String a k) (req_location req) rps 0 sources s)) in
  (truthy_str (req_location req) = false ->
   location_or_default (req_location req) = "India")
  /\ exists added,
       st_calls (snd (handler w req s)) = (st_calls s ++ added)%list
       /\ Forall (expected_call w (String a k) (location_or_default (req_location req)) merged)
            added.
Proof.
  intros Hk Hs rps merged. split.
  - unfold location_or_default, or_else. intros ->. reflexivity.
  - rewrite (handler_pipeline w req a k sources s Hk Hs).
    unfold pipeline. cbv zeta. fold rps.
    destruct (scrape_loop_extractions w (String a k) (req_location req) rps sources 0%nat [] s)
      as (s1 & Hloop).
    cbn [app] in Hloop. fold merged in Hloop.
    destruct (expected_scrape_loop w merged (String a k) (req_location req) rps sources
                0%nat [] s) as (added1 & C1 & F1).
    rewrite Hloop in C1. simpl in C1.
    unfold bind at 1. rewrite Hloop.
    assert (emits (expected_call w (String a k) (location_or_default (req_location req)) merged)
              (bind (res_write (Progress "Finding career pages..." 60))
                 (fun _ => bind (enrich w merged)
                    (fun allJobs => bind (res_write (Progress "Complete!" 100))
                       (fun _ => bind (res_write (Complete allJobs)) (fun _ => res_end))))))
      as Hrest.
    { apply emits_bind; [apply emits_res_write |]. intros _.
      apply emits_bind; [by apply expected_enrich_loop |]. intros final.
      apply emits_bind; [apply emits_res_write |]. intros _.
      apply emits_bind; [apply emits_res_write |]. intros _.
      by apply emits_quiet. }
    destruct (Hrest s1) as (added2 & C2 & F2).
    exists (added1 ++ added2)%list.
    split; [by rewrite C2, C1, app_assoc | by apply Forall_app].
Qed.

(** A request without a location for both sources: the LinkedIn search is
    for India, the first web search is for the company of the first job,
    and every call is an expected one. *)
Lemma requests_visit_only_the_expected_pages_witness :
  let req := {| req_keywords := Some "backend engineer"; req_location := Some EmptyString;
                req_sources := Some ["linkedin"; "naukri"]; req_maxResults := None |} in
  let rps := resultsPerSource 20 ["linkedin"; "naukri"] in
  let merged := concat (map (kept rps)
                  (extractions Fixture.calm "backend engineer" (Some EmptyString) rps 0
                     ["linkedin"; "naukri"] initial_state)) in
  location_or_default (req_location req) = "India"
  /\ (exists job, merged !! 0%nat = Some job /\ job !! "company" = Some (VStr "Acme"))
  /\ st_calls (snd (handler Fixture.calm req initial_state)) !! 3%nat
     = Some (Goto (LinkedInSearch "backend engineer" "India" 0) 30000)
  /\ st_calls (snd (handler Fixture.calm req initial_state)) !! 15%nat
     = Some (Goto (GoogleSearch "Acme careers") 15000)
  /\ exists added,
       st_calls (snd (handler Fixture.calm req initial_state)) = added
       /\ Forall (expected_call Fixture.calm "backend engineer" "India" merged) added.
Proof.
  intros req rps merged.
  destruct (requests_visit_only_the_expected_pages Fixture.calm req "b" "ackend engineer"
              ["linkedin"; "naukri"] initial_state eq_refl eq_refl)
    as (Hloc & added & Hcalls & Hall).
  split; [apply Hloc; reflexivity |].
  split; [eexists; split; reflexivity |].
  split; [reflexivity |]. split; [reflexivity |].
  exists added. split; [exact Hcalls | exact Hall].
Defined.

(** ** Ids within one response *)

Lemma id_from_one_source source source' (j j' : JobRecord) :
  known_source source = true -> known_source source' = true ->
  id_from source j -> id_from source' j' -> j !! "id" = j' !! "id" ->
  source = source'.
Proof.
  intros Hk Hk' (now & i & Hid) (now' & i' & Hid') Heq.
  rewrite Hid, Hid' in Heq. injection Heq as Heq.
  assert (forall src, known_source src = true -> dashless src = true) as Hdash.
  { intros src H. unfold known_source in H.
    apply orb_true_iff in H as [H | H]; apply String.eqb_eq in H as ->; reflexivity. }
  change (source +:+ String "-" (pretty now +:+ "-" +:+ pretty i)
          = source' +:+ String "-" (pretty now' +:+ "-" +:+ pretty i')) in Heq.
  apply split_at_dash in Heq as [Hs _]; auto.
Qed.

Lemma scrape_source_ids w keywords location k source s jobs s' :
  scrape_source w keywords location k source s = (Ret jobs, s') ->
  NoDup ((fun j : JobRecord => j !! "id") <$> jobs)
  /\ Forall (fun j => known_source source = true /\ id_from source j) jobs.
Proof.
  unfold scrape_source, known_source.
  destruct (String.eqb source "linkedin") eqn:El;
    [| destruct (String.eqb source "naukri") eqn:En].
  - apply String.eqb_eq in El as ->. unfold bind at 1. simpl. intros H.
    apply scrapeLinkedIn_ret in H as (cards & _ & ->).
    split; [apply linkedin_ids_NoDup |].
    apply Forall_forall. intros j Hj. split; [reflexivity |].
    unfold linkedin_jobs in Hj. apply list_elem_of_omap in Hj as (o & Ho & Hid).
    apply elem_of_lookup_imap in Ho as (i & c & -> & _).
    exists (li_now c), i. by apply linkedin_job_id.
  - apply String.eqb_eq in En as ->. unfold bind at 1. simpl. intros H.
    apply scrapeNaukri_ret in H as (cards & _ & ->).
    split; [apply naukri_ids_NoDup |].
    apply Forall_forall. intros j Hj. split; [reflexivity |].
    unfold naukri_jobs in Hj. apply list_elem_of_omap in Hj as (o & Ho & Hid).
    apply elem_of_lookup_imap in Ho as (i & c & -> & _).
    exists (nk_now c), i. by apply naukri_job_id.
  - intros [= <- _]. split; constructor.
Qed.

Lemma extractions_ids w keywords location rps sources :
  NoDup sources ->
  forall k s,
    let merged := concat (map (kept rps) (extractions w keywords location rps k sources s)) in
    NoDup ((fun j : JobRecord => j !! "id") <$> merged)
    /\ Forall (fun j => exists source,
                          source ∈ sources /\ known_source source = true
                          /\ id_from source j) merged.
Proof.
  induction sources as [| source rest IH]; intros Hnd k s.
  - split; constructor.
  - apply NoDup_cons in Hnd as [Hfresh Hnd].
    cbn [extractions map concat].
    destruct (IH Hnd (S k) (snd (scrape_iteration w keywords location rps k source [] s)))
      as [Hrest_nd Hrest].
    set (rest_jobs := concat (map (kept rps) (extractions w keywords location rps (S k) rest
                        (snd (scrape_iteration w keywords location rps k source [] s))))) in *.
    assert (NoDup ((fun j : JobRecord => j !! "id")
                     <$> kept rps (fst (scrape_source w keywords location k source s)))
            /\ Forall (fun j => known_source source = true /\ id_from source j)
                 (kept rps (fst (scrape_source w keywords location k source s))))
      as [Hfirst_nd Hfirst].
    { destruct (scrape_source w keywords location k source s) as [[jobs | e] s1] eqn:E;
        cbn [fst kept]; [| split; constructor].
      destruct (scrape_source_ids _ _ _ _ _ _ _ _ E) as [Hnd' Hall].
      destruct (slice0_prefix jobs rps) as [n ->]. split.
      - rewrite fmap_take. eapply sublist_NoDup; [exact Hnd' | apply sublist_take].
      - by apply Forall_take. }
    split.
    + rewrite fmap_app. apply NoDup_app. split; [exact Hfirst_nd |].
      split; [| exact Hrest_nd].
      intros x Hx Hx'.
      apply list_elem_of_fmap in Hx as (j & -> & Hj).
      apply list_elem_of_fmap in Hx' as (j' & Heq & Hj').
      rewrite Forall_forall in Hfirst. destruct (Hfirst j Hj) as [Hk Hid].
      rewrite Forall_forall in Hrest.
      destruct (Hrest j' Hj') as (source' & Hin & Hk' & Hid').
      assert (source = source') as <- by (eapply id_from_one_source; eassumption).
      contradiction.
    + apply Forall_app. split.
      * eapply Forall_impl; [exact Hfirst |]. intros j [Hk Hid].
        exists source. split; [apply list_elem_of_here | auto].
      * eapply Forall_impl; [exact Hrest |]. intros j (src & Hin & Hk & Hid).
        exists src. split; [by apply list_elem_of_further | auto].
Qed.

(** X8.  When no source is listed twice, no two jobs of the complete event
    have the same id: within one source the position of the card tells
    them apart, across sources the source name does, and the enrichment
    leaves ids alone. *)
Theorem ids_differ_within_one_response w req a k sources s :
  req_keywords req = Some (String a k) ->
  req_sources req = Some sources ->
  NoDup sources ->
  exists final s',
    handler w req s = (Ret tt, s')
    /\ res_frames (st_res s') = (res_frames (st_res s) ++ stream_of sources final)%list
    /\ NoDup ((fun j : JobRecord => j !! "id") <$> final).
Proof.
  intros Hk Hs Hnd.
  destruct (handler_run w req a k sources s Hk Hs)
    as (final & s' & Hrun & Hframes & _ & _ & _ & _ & Hlen & _ & Hin).
  exists final, s'. split; [exact Hrun |]. split; [exact Hframes |].
  destruct (extractions_ids w (String a k) (req_location req)
              (resultsPerSource (request_maxResults req) sources) sources Hnd 0%nat s)
    as [Hmerged _].
  cbv zeta in Hmerged.
  set (merged := concat (map (kept (resultsPerSource (request_maxResults req) sources))
                    (extractions w (String a k) (req_location req)
                       (resultsPerSource (request_maxResults req) sources) 0 sources s)))
    in *.
  replace ((fun j : JobRecord => j !! "id") <$> final)
    with ((fun j : JobRecord => j !! "id") <$> merged); [exact Hmerged |].
  apply list_eq. intros i. rewrite !list_lookup_fmap.
  destruct (merged !! i) as [o |] eqn:Ho.
  - destruct (Hin i o Ho) as (c & -> & Hstep). simpl.
    f_equal. symmetry. by apply (enrich_step_frame o c "id" Hstep).
  - apply lookup_ge_None in Ho. rewrite <- Hlen in Ho.
    apply lookup_ge_None in Ho. rewrite Ho. reflexivity.
Qed.

Lemma ids_differ_within_one_response_witness :
  exists final s',
    handler Fixture.calm (Fixture.scrape ["linkedin"; "naukri"] None) initial_state
    = (Ret tt, s')
    /\ res_frames (st_res s') = stream_of ["linkedin"; "naukri"] final
    /\ NoDup ((fun j : JobRecord => j !! "id") <$> final).
Proof.
  apply (ids_differ_within_one_response Fixture.calm
           (Fixture.scrape ["linkedin"; "naukri"] None) "b" "ackend engineer"
           ["linkedin"; "naukri"] initial_state eq_refl eq_refl).
  apply (bool_decide_unpack _). vm_compute. exact I.
Defined.

(** ** The enrichment of the first jobs *)

Lemma findCareerPage_healthy p companyName href s :
  healthy p = true -> evaluate_result p = Some (Some href) ->
  fst (findCareerPage p companyName s) = Ret (VStr href).
Proof.
  destruct p as [[] [] [] [] [] [?|] []]; destruct s as [[] calls console res];
    intros Hh He; try discriminate Hh; try discriminate He;
    injection He as ->; reflexivity.
Qed.

Lemma findHREmail_healthy p c u text s :
  healthy p = true -> evaluate_result p = Some text ->
  fst (findHREmail p (VStr (String c u)) s) = Ret (select_email text).
Proof.
  destruct p as [[] [] [] [] [] [?|] []]; destruct s as [[] calls console res];
    intros Hh He; try discriminate Hh; try discriminate He;
    injection He as ->; reflexivity.
Qed.

Lemma enrich_iteration_healthy w i (allJobs : list JobRecord) s o c u text :
  allJobs !! i = Some o ->
  healthy (career_page w i) = true ->
  evaluate_result (career_page w i) = Some (Some (String c u)) ->
  healthy (email_page w i) = true ->
  evaluate_result (email_page w i) = Some text ->
  fst (enrich_iteration w i allJobs s)
  = Ret (<[i := <["hrEmail" := select_email text]>
                   (<["careerPageUrl" := VStr (String c u)]> o)]> allJobs).
Proof.
  intros Ho Hc Hce He Hee. unfold enrich_iteration. rewrite Ho.
  unfold try_catch at 1. unfold bind at 1.
  pose proof (findCareerPage_healthy (career_page w i) (to_string (o !! "company"))
                (String c u) s Hc Hce) as H1.
  destruct (findCareerPage _ _ s) as [r1 s1]. simpl in H1. subst r1.
  cbn [truthy]. unfold try_catch, bind.
  pose proof (findHREmail_healthy (email_page w i) c u text s1 He Hee) as H2.
  destruct (findHREmail _ _ s1) as [r2 s2]. simpl in H2. subst r2.
  unfold ret. cbn [fst]. by rewrite list_insert_insert_eq.
Qed.

Lemma enrich_loop_at w i (enriched o : JobRecord) :
  (forall (cur : list JobRecord) s,
      cur !! i = Some o -> fst (enrich_iteration w i cur s) = Ret (<[i := enriched]> cur)) ->
  forall fuel i0 (cur : list JobRecord) s,
    (i0 <= i < i0 + fuel)%nat -> (i < 5)%nat -> cur !! i = Some o ->
    exists final s',
      enrich_loop w fuel i0 cur s = (Ret final, s') /\ final !! i = Some enriched.
Proof.
  intros Hit. induction fuel as [| fuel IH]; intros i0 cur s Hi H5 Ho; [lia |].
  pose proof (lookup_lt_Some _ _ _ Ho) as Hlen.
  simpl enrich_loop.
  destruct (Nat.ltb_spec i0 (Nat.min (length cur) 5)) as [_ | Hge]; [| lia].
  destruct (lookup_lt_is_Some_2 cur i0 ltac:(lia)) as [job Hjob].
  destruct (enrich_iteration_run w i0 cur s job Hjob) as (job' & s1 & Hrun & _ & _).
  unfold bind. rewrite Hrun.
  destruct (decide (i0 = i)) as [-> | Hne].
  - assert (job = o) as -> by congruence.
    pose proof (Hit cur s Ho) as Hfst. rewrite Hrun in Hfst. injection Hfst as Heq.
    destruct (enrich_loop_run w fuel (S i) (<[i := job']> cur) s1)
      as (final & s' & Hloop & _ & _ & Hout & _).
    exists final, s'. split; [exact Hloop |].
    rewrite Hout by lia. rewrite Heq. by apply list_lookup_insert_eq.
  - apply IH; [lia | exact H5 |].
    rewrite list_lookup_insert_ne by exact Hne. exact Ho.
Qed.

(** X15.  Each of the first five merged jobs whose two pages answer gets both
    properties: when the search for its company shows a first result with
    a non-empty address and that page is read, the job of the complete
    event is the merged one with [careerPageUrl] set to the address and
    [hrEmail] set to what the page text yields. *)
Theorem first_jobs_get_both_properties w req a k sources s i c u text :
  req_keywords req = Some (String a k) ->
  req_sources req = Some sources ->
  (i < 5)%nat ->
  healthy (career_page w i) = true ->
  evaluate_result (career_page w i) = Some (Some (String c u)) ->
  healthy (email_page w i) = true ->
  evaluate_result (email_page w i) = Some text ->
  exists merged s1 final s',
    scrape_loop w (String a k) (req_location req)
      (resultsPerSource (request_maxResults req) sources) 0 sources [] s
    = (Ret merged, s1)
    /\ handler w req s = (Ret tt, s')
    /\ res_frames (st_res s') = (res_frames (st_res s) ++ stream_of sources final)%list
    /\ forall o : JobRecord,
         merged !! i = Some o ->
         final !! i = Some (<["hrEmail" := select_email text]>
                              (<["careerPageUrl" := VStr (String c u)]> o)).
Proof.
  intros Hk Hs H5 Hc Hce He Hee.
  destruct (scrape_loop_extractions w (String a k) (req_location req)
              (resultsPerSource (request_maxResults req) sources) sources 0%nat [] s)
    as (s1 & Hloop).
  cbn [app] in Hloop.
  set (merged := concat _) in Hloop.
  rewrite (handler_pipeline w req a k sources s Hk Hs).
  unfold pipeline. cbv zeta. unfold bind at 1. rewrite Hloop.
  unfold bind at 1.
  destruct (res_write (Progress "Finding career pages..." 60) s1) as [r s2] eqn:Hw.
  injection Hw as <- Hs2.
  destruct (enrich_run w merged s2) as (final & s3 & Hen & Hres & _).
  unfold bind at 1. rewrite Hen.
  exists merged, s1, final. eexists. split; [reflexivity |]. split; [reflexivity |].
  split.
  - destruct (scrape_loop_run w (String a k) (req_location req)
                (resultsPerSource (request_maxResults req) sources) sources 0%nat [] s)
      as (jobs & s1' & Hloop' & (F & _) & _).
    rewrite Hloop in Hloop'. injection Hloop' as _ <-.
    simpl. rewrite Hres, <- Hs2. simpl. rewrite F. unfold stream_of.
    by rewrite <- !app_assoc.
  - intros o Ho.
    destruct (enrich_loop_at w i
                (<["hrEmail" := select_email text]>
                   (<["careerPageUrl" := VStr (String c u)]> o)) o
                ltac:(intros cur st Hcur;
                      by apply enrich_iteration_healthy)
                5%nat 0%nat merged s2 ltac:(lia) H5 Ho)
      as (final' & s3' & Hen' & Hfinal).
    unfold enrich in Hen. rewrite Hen in Hen'. injection Hen' as <- _. exact Hfinal.
Qed.

Lemma first_jobs_get_both_properties_witness :
  exists (final : list JobRecord) s',
    handler Fixture.calm (Fixture.scrape ["linkedin"] (Some 10)) initial_state = (Ret tt, s')
    /\ res_frames (st_res s') = stream_of ["linkedin"] final
    /\ (exists job, final !! 4%nat = Some job
                    /\ job !! "careerPageUrl" = Some (VStr "https://acme.example/careers")
                    /\ job !! "hrEmail" = Some (VStr "Careers@acme.example")).
Proof.
  destruct (first_jobs_get_both_properties Fixture.calm
              (Fixture.scrape ["linkedin"] (Some 10)) "b" "ackend engineer" ["linkedin"]
              initial_state 4 "h" "ttps://acme.example/careers" Fixture.careers_text
              eq_refl eq_refl ltac:(lia) eq_refl eq_refl eq_refl eq_refl)
    as (merged & s1 & final & s' & Hloop & Hrun & Hframes & Hjob).
  exists final, s'. split; [exact Hrun |]. split; [exact Hframes |].
  injection Hloop as <- _.
  eexists. split; [apply Hjob; reflexivity |]. split; reflexivity.
Defined.

(** ** When an extractor throws *)

Ltac settle_extractor :=
  repeat split;
  repeat match goal with
         | |- _ -> _ => intros ?
         | H : exists _, _ |- _ => destruct H as [? H]
         | H : _ = _ |- _ => discriminate H
         end;
  eauto.

(** X16.  Once its page is open and provided the page closes, an extractor
    returns exactly when setting the user agent, the navigation, the wait
    for the results and the evaluation all succeed, and then nothing is
    logged; otherwise it throws after logging one line of its own; and
    when the results never show up, what it throws is the timeout of the
    wait. *)
Theorem extractors_return_or_rethrow pl pn keywords location page s :
  page_opens pl s = true -> close_ok pl = true ->
  page_opens pn s = true -> close_ok pn = true ->
  (((exists jobs, fst (scrapeLinkedIn pl keywords location page s) = Ret jobs)
    <-> setUserAgent_ok pl && goto_ok pl && waitForSelector_ok pl
        && present (evaluate_result pl) = true)
   /\ (forall jobs, fst (scrapeLinkedIn pl keywords location page s) = Ret jobs ->
         st_console (snd (scrapeLinkedIn pl keywords location page s)) = st_console s)
   /\ (forall e, fst (scrapeLinkedIn pl keywords location page s) = Throw e ->
         st_console (snd (scrapeLinkedIn pl keywords location page s))
         = (st_console s ++ ["LinkedIn scraping error:"])%list)
   /\ (setUserAgent_ok pl && goto_ok pl = true -> waitForSelector_ok pl = false ->
         fst (scrapeLinkedIn pl keywords location page s) = Throw SelectorTimeout))
  /\ (((exists jobs, fst (scrapeNaukri pn keywords location page s) = Ret jobs)
       <-> setUserAgent_ok pn && goto_ok pn && waitForSelector_ok pn
           && present (evaluate_result pn) = true)
      /\ (forall jobs, fst (scrapeNaukri pn keywords location page s) = Ret jobs ->
            st_console (snd (scrapeNaukri pn keywords location page s)) = st_console s)
      /\ (forall e, fst (scrapeNaukri pn keywords location page s) = Throw e ->
            st_console (snd (scrapeNaukri pn keywords location page s))
            = (st_console s ++ ["Naukri scraping error:"])%list)
      /\ (setUserAgent_ok pn && goto_ok pn = true -> waitForSelector_ok pn = false ->
            fst (scrapeNaukri pn keywords location page s) = Throw SelectorTimeout)).
Proof.
  intros Hl Hlc Hn Hnc. split.
  - clear Hn Hnc. revert Hl Hlc.
    destruct pl as [[] [] [] [] [] [?|] []]; destruct s as [[] calls console res];
      intros Hl Hlc; try discriminate Hl; try discriminate Hlc;
      cbv [present setUserAgent_ok goto_ok waitForSelector_ok evaluate_result andb];
      settle_extractor.
  - clear Hl Hlc. revert Hn Hnc.
    destruct pn as [[] [] [] [] [] [?|] []]; destruct s as [[] calls console res];
      intros Hn Hnc; try discriminate Hn; try discriminate Hnc;
      cbv [present setUserAgent_ok goto_ok waitForSelector_ok evaluate_result andb];
      settle_extractor.
Qed.

Lemma extractors_return_or_rethrow_witness :
  fst (scrapeLinkedIn Fixture.timing_out "backend engineer" "India" 0 initial_state)
  = Throw SelectorTimeout
  /\ st_console (snd (scrapeNaukri Fixture.timing_out "backend engineer" "India" 0
                        initial_state))
     = ["Naukri scraping error:"].
Proof.
  destruct (extractors_return_or_rethrow Fixture.timing_out Fixture.timing_out
              "backend engineer" "India" 0 initial_state eq_refl eq_refl eq_refl eq_refl)
    as ((_ & _ & _ & Hli) & (_ & _ & Hnk & _)).
  split.
  - apply Hli; reflexivity.
  - apply (Hnk SelectorTimeout). reflexivity.
Defined.

